(** * cpp-uuidv7: the UUID version 7 value type and its monotonic generator

    A shallow embedding of [include/uuidv7/uuidv7.hpp] and
    [src/generator.cpp].

    - A [std::uint8_t] is a [Z] in [0, 256); every store into a byte goes
      through [u8], the wrap-around of the conversion to [std::uint8_t].
    - A [std::array<std::uint8_t, N>] is a [list Z]; [a[i]] is the total
      lookup [a !!! i] and [a[i] = v] is [<[i:=v]> a].  Every index the
      source uses is a constant below the array's size.
    - A [std::string_view] / [std::string] is a [string]; [s[i]] is [s.[i]].
    - A thrown exception is the left injection of [result]; the C++ class
      of the exception and its message are both kept.
    - The generator's member [last_generated_] is threaded explicitly:
      [generate] returns the stored value after the call next to what the
      call returned or threw, since a [throw] does not roll the member back.
    - The wall clock and the CSPRNG are inputs: the clock reading is an
      argument, the CSPRNG is an oracle with a call counter. *)

From stdpp Require Import base list numbers strings.
From Stdlib Require Import Ascii ZArith Lia Sorted.

Local Open Scope Z_scope.

(** ** Bytes, characters, exceptions *)

(** Conversion to [std::uint8_t]. *)
Definition u8 (z : Z) : Z := z mod 256.

Definition is_u8 (z : Z) : bool := (0 <=? z) && (z <? 256).

(** The numeric value of a [char].  Whether [char] is signed is left to the
    platform; the source only compares characters with members of the ASCII
    range, where both readings agree, so the unsigned code is used. *)
Definition code (c : ascii) : Z := Z.of_N (N_of_ascii c).

(** [str[i]]; the source only reads below [str.length()]. *)
Definition char_at (str : string) (i : nat) : ascii :=
  match String.get i str with
  | Some c => c
  | None => "000"%char
  end.

Notation "s .[ i ]" := (char_at s i) (at level 1, left associativity, format "s .[ i ]").

(** [result[c] = ch] on a [std::string]. *)
Fixpoint str_set (s : string) (i : nat) (ch : ascii) : string :=
  match s, i with
  | EmptyString, _ => EmptyString
  | String _ s', O => String ch s'
  | String c s', S i' => String c (str_set s' i' ch)
  end.

(** [std::string(n, ch)]. *)
Fixpoint str_make (n : nat) (ch : ascii) : string :=
  match n with
  | O => EmptyString
  | S n' => String ch (str_make n' ch)
  end.

(** What a call can end with instead of a value: the two exception classes
    of the library with their message, the exception of the platform's
    random source ([std::system_error] or [std::runtime_error], by
    platform), and a failed [assert]. *)
Inductive exn : Type :=
| invalid_format_error (what : string)
| sequence_overflow_error (what : string)
| csprng_error (what : string)
| assertion_failure (expr : string).

Definition result (A : Type) : Type := exn + A.

Definition is_sequence_overflow_error (e : exn) : bool :=
  match e with sequence_overflow_error _ => true | _ => false end.

(** [std::lexicographical_compare], which is [operator<] of [std::array]. *)
Fixpoint lexicographical_compare (a b : list Z) : bool :=
  match a, b with
  | _, [] => false
  | [], _ :: _ => true
  | x :: a', y :: b' =>
      if x <? y then true
      else if y <? x then false
      else lexicographical_compare a' b'
  end.

(** [std::memcmp(a, b, n)]: the sign of the first difference among the
    first [n] bytes, compared as [unsigned char]. *)
Fixpoint memcmp (a b : list Z) (n : nat) {struct n} : Z :=
  match n with
  | O => 0
  | S n' =>
      match a, b with
      | x :: a', y :: b' =>
          if x <? y then -1
          else if y <? x then 1
          else memcmp a' b' n'
      | _, _ => 0
      end
  end.

(** [std::memcpy(dst + doff, src + soff, n)]. *)
Fixpoint memcpy (dst : list Z) (doff : nat) (src : list Z) (soff n : nat) : list Z :=
  match n with
  | O => dst
  | S n' => memcpy (<[doff := src !!! soff]> dst) (S doff) src (S soff) n'
  end.

(** ** The value type [uuidv7::uuidv7] *)

Module uuidv7.

Record uuidv7 : Type := from_array { data_ : list Z }.

Definition MAX_RAND_A : Z := 0x0FFF.
Definition MAX_RAND_B : Z := 0x3FFFFFFFFFFFFFFF.
Definition VERSION : Z := 7.
Definition VARIANT : Z := 2.

Inductive ParseResult : Type :=
| Success
| InvalidVersion
| InvalidVariant
| InvalidFormat.

Definition get_bytes (u : uuidv7) : list Z := data_ u.

(** [operator==] and [operator<]. *)
Definition eqb (lhs rhs : uuidv7) : bool :=
  bool_decide (data_ lhs = data_ rhs).

Definition ltb (lhs rhs : uuidv7) : bool :=
  lexicographical_compare (data_ lhs) (data_ rhs).

(** The sixteen assignments of the constructor from fields. *)
Definition encode (unix_ts_ms rand_a rand_b : Z) : list Z :=
  let d := replicate 16 0 in
  let d := <[0%nat := u8 (Z.land (Z.shiftr unix_ts_ms 40) 0xFF)]> d in
  let d := <[1%nat := u8 (Z.land (Z.shiftr unix_ts_ms 32) 0xFF)]> d in
  let d := <[2%nat := u8 (Z.land (Z.shiftr unix_ts_ms 24) 0xFF)]> d in
  let d := <[3%nat := u8 (Z.land (Z.shiftr unix_ts_ms 16) 0xFF)]> d in
  let d := <[4%nat := u8 (Z.land (Z.shiftr unix_ts_ms 8) 0xFF)]> d in
  let d := <[5%nat := u8 (Z.land unix_ts_ms 0xFF)]> d in
  let d := <[6%nat := u8 (Z.lor (Z.land (Z.shiftr rand_a 8) (Z.shiftr 0xFF 4))
                                (Z.shiftl VERSION 4))]> d in
  let d := <[7%nat := u8 (Z.land rand_a 0xFF)]> d in
  let d := <[8%nat := u8 (Z.lor (Z.land (Z.shiftr rand_b 56) (Z.shiftr 0xFF 2))
                                (Z.shiftl VARIANT 6))]> d in
  let d := <[9%nat := u8 (Z.land (Z.shiftr rand_b 48) 0xFF)]> d in
  let d := <[10%nat := u8 (Z.land (Z.shiftr rand_b 40) 0xFF)]> d in
  let d := <[11%nat := u8 (Z.land (Z.shiftr rand_b 32) 0xFF)]> d in
  let d := <[12%nat := u8 (Z.land (Z.shiftr rand_b 24) 0xFF)]> d in
  let d := <[13%nat := u8 (Z.land (Z.shiftr rand_b 16) 0xFF)]> d in
  let d := <[14%nat := u8 (Z.land (Z.shiftr rand_b 8) 0xFF)]> d in
  let d := <[15%nat := u8 (Z.land rand_b 0xFF)]> d in
  d.

(** [uuidv7(std::uint64_t unix_ts_ms, std::uint16_t rand_a,
    std::uint64_t rand_b)], in a build that keeps [assert]: a failed
    assertion aborts and is reported as [assertion_failure]. *)
Definition ctor (unix_ts_ms rand_a rand_b : Z) : result uuidv7 :=
  if negb (rand_a <=? MAX_RAND_A) then inl (assertion_failure "rand_a <= MAX_RAND_A")
  else if negb (rand_b <=? MAX_RAND_B) then inl (assertion_failure "rand_b <= MAX_RAND_B")
  else inr (from_array (encode unix_ts_ms rand_a rand_b)).

(** The lambda [hex_to_int] of [parse_inner]. *)
Definition hex_to_int (c : ascii) : Z :=
  if (code "0" <=? code c) && (code c <=? code "9") then u8 (code c - code "0")
  else if (code "a" <=? code c) && (code c <=? code "f") then u8 (code c - code "a" + 10)
  else if (code "A" <=? code c) && (code c <=? code "F") then u8 (code c - code "A" + 10)
  else 0xFF.

(** The [for] loop of [parse_inner]; [n] iterations are left, that is
    [n = 16 - i]. *)
Fixpoint parse_loop (n : nat) (include_hyphens : bool) (str : string)
    (c i : nat) (result : list Z) : ParseResult * list Z :=
  match n with
  | O => (Success, result)
  | S n' =>
      let c := if include_hyphens
                  && ((c =? 8)%nat || (c =? 13)%nat || (c =? 18)%nat || (c =? 23)%nat)
               then S c else c in
      let h1 := hex_to_int str.[c] in
      let h2 := hex_to_int str.[c + 1] in
      if (h1 =? 0xFF) || (h2 =? 0xFF) then (InvalidFormat, result)
      else parse_loop n' include_hyphens str (c + 2) (S i)
             (<[i := u8 (Z.lor (Z.shiftl h1 4) h2)]> result)
  end.

(** [parse_inner] once the length and the hyphens are accepted and
    [include_hyphens], [version_index] and [variant_index] are set. *)
Definition parse_fields (str : string) (include_hyphens : bool)
    (version_index variant_index : nat) (result : list Z) : ParseResult * list Z :=
  if negb (Ascii.eqb str.[version_index] "7") then (InvalidVersion, result)
  else
    let var_char := hex_to_int str.[variant_index] in
    if var_char =? 0xFF then (InvalidFormat, result)
    else if negb (Z.shiftr (Z.land var_char 12) 2 =? VARIANT)
    then (InvalidVariant, result)
    else parse_loop 16 include_hyphens str 0 0 result.

(** [parse_inner]; the second component is the out-parameter [result]
    as the call leaves it. *)
Definition parse_inner (str : string) (result : list Z) : ParseResult * list Z :=
  if (String.length str =? 36)%nat then
    if negb (Ascii.eqb str.[8] "-") || negb (Ascii.eqb str.[13] "-")
       || negb (Ascii.eqb str.[18] "-") || negb (Ascii.eqb str.[23] "-")
    then (InvalidFormat, result)
    else parse_fields str true 14 19 result
  else if (String.length str =? 32)%nat then parse_fields str false 12 16 result
  else (InvalidFormat, result).

Definition parse (str : string) : result uuidv7 :=
  match ctor 0 0 0 with
  | inl e => inl e
  | inr result =>
      match parse_inner str (data_ result) with
      | (Success, d) => inr (from_array d)
      | (InvalidVersion, _) => inl (invalid_format_error "Invalid UUID Version 7 version")
      | (InvalidVariant, _) => inl (invalid_format_error "Invalid UUID Version 7 variant")
      | (InvalidFormat, _) => inl (invalid_format_error "Invalid UUID Version 7 string format")
      end
  end.

(** [try_parse] is [noexcept]; a failed assertion of the constructor would
    end the program there as well and has no value to return.  In both
    [parse] and [try_parse] the constructor is called at [(0, 0, 0)], where
    its assertions hold. *)
Definition try_parse (str : string) : option uuidv7 :=
  match ctor 0 0 0 with
  | inl _ => None
  | inr result =>
      match parse_inner str (data_ result) with
      | (Success, d) => Some (from_array d)
      | _ => None
      end
  end.

(** [from_bytes(const std::array<uint8_t, 16>&)]. *)
Definition from_bytes (bytes : list Z) : result uuidv7 :=
  if negb (Z.land (Z.shiftr (bytes !!! 6%nat) 4) 15 =? VERSION)
  then inl (invalid_format_error "Invalid UUID Version 7 version")
  else if negb (Z.land (Z.shiftr (bytes !!! 8%nat) 6) 3 =? VARIANT)
  then inl (invalid_format_error "Invalid UUID Version 7 variant")
  else inr (from_array bytes).

(** [from_bytes] on a pointer to bytes: the pointer is [None] when null
    and otherwise gives the memory it points to; sixteen bytes are copied. *)
Definition from_bytes_ptr (bytes : option (list Z)) : result uuidv7 :=
  match bytes with
  | None => inl (invalid_format_error "Input pointer is null")
  | Some mem => from_bytes (memcpy (replicate 16 0) 0 mem 0 16)
  end.

Definition HEX_CHARS : string := "0123456789abcdef".

(** The [for] loop of [to_string], [n = 16 - i]. *)
Fixpoint to_string_loop (n : nat) (include_hyphens : bool) (bytes : list Z)
    (i c : nat) (result : string) : string :=
  match n with
  | O => result
  | S n' =>
      let '(result, c) :=
        if include_hyphens
           && ((i =? 4)%nat || (i =? 6)%nat || (i =? 8)%nat || (i =? 10)%nat)
        then (str_set result c "-", S c) else (result, c) in
      let byte := bytes !!! i in
      let result :=
        str_set result c HEX_CHARS.[Z.to_nat (Z.land (Z.shiftr byte 4) 0x0F)] in
      let result :=
        str_set result (c + 1) HEX_CHARS.[Z.to_nat (Z.land byte 0x0F)] in
      to_string_loop n' include_hyphens bytes (S i) (c + 2) result
  end.

Definition to_string (u : uuidv7) (include_hyphens : bool) : string :=
  let result := str_make (if include_hyphens then 36 else 32) "000" in
  let bytes := get_bytes u in
  to_string_loop 16 include_hyphens bytes 0 0 result.

(** The fields of the layout, read back from the sixteen bytes. *)
Definition version_of (d : list Z) : Z := Z.land (Z.shiftr (d !!! 6%nat) 4) 0x0F.
Definition variant_of (d : list Z) : Z := Z.land (Z.shiftr (d !!! 8%nat) 6) 0x03.

Definition timestamp_of (d : list Z) : Z :=
  d !!! 0%nat * 2 ^ 40 + d !!! 1%nat * 2 ^ 32 + d !!! 2%nat * 2 ^ 24
  + d !!! 3%nat * 2 ^ 16 + d !!! 4%nat * 2 ^ 8 + d !!! 5%nat.

Definition rand_a_of (d : list Z) : Z :=
  Z.land (d !!! 6%nat) 0x0F * 2 ^ 8 + d !!! 7%nat.

Definition rand_b_of (d : list Z) : Z :=
  Z.land (d !!! 8%nat) 0x3F * 2 ^ 56 + d !!! 9%nat * 2 ^ 48 + d !!! 10%nat * 2 ^ 40
  + d !!! 11%nat * 2 ^ 32 + d !!! 12%nat * 2 ^ 24 + d !!! 13%nat * 2 ^ 16
  + d !!! 14%nat * 2 ^ 8 + d !!! 15%nat.

(** The 74-bit counter: [rand_a] followed by [rand_b]. *)
Definition counter_of (d : list Z) : Z := rand_a_of d * 2 ^ 62 + rand_b_of d.

(** Sixteen bytes. *)
Definition is_array16 (d : list Z) : bool :=
  (length d =? 16)%nat && forallb is_u8 d.

(** Sixteen bytes with the two fixed fields of the layout. *)
Definition valid (u : uuidv7) : bool :=
  is_array16 (data_ u) && (version_of (data_ u) =? VERSION)
  && (variant_of (data_ u) =? VARIANT).

(** [operator!=], [operator>], [operator<=] and [operator>=], each written
    in the source through [operator==] or [operator<]. *)
Definition operator_ne (lhs rhs : uuidv7) : bool := negb (eqb lhs rhs).
Definition operator_gt (lhs rhs : uuidv7) : bool := ltb rhs lhs.
Definition operator_le (lhs rhs : uuidv7) : bool := negb (ltb rhs lhs).
Definition operator_ge (lhs rhs : uuidv7) : bool := negb (ltb lhs rhs).

(** Conversion to [size_t], [Size] bytes wide. *)
Definition to_size_t (Size : nat) (z : Z) : Z := z mod 2 ^ (8 * Z.of_nat Size).

(** The inner loop of [get_hash] over [j], [n = Size - j]. *)
Fixpoint hash_chunk (n : nat) (Size : nat) (d : list Z) (i j : nat) (value : Z) : Z :=
  match n with
  | O => value
  | S n' =>
      hash_chunk n' Size d i (S j)
        (to_size_t Size (Z.lor (Z.shiftl value 8) (d !!! (i * Size + j)%nat)))
  end.

(** The outer loop of [get_hash] over [i], [n = 16 / Size - i]. *)
Fixpoint hash_loop (n : nat) (Size : nat) (d : list Z) (i : nat) (hash : Z) : Z :=
  match n with
  | O => hash
  | S n' => hash_loop n' Size d (S i) (Z.lxor hash (hash_chunk Size Size d i 0 0))
  end.

(** [get_hash], for a platform whose [sizeof(size_t)] is [Size]. *)
Definition get_hash (Size : nat) (u : uuidv7) : Z :=
  hash_loop (16 / Size) Size (data_ u) 0 0.

End uuidv7.

Import uuidv7.

(** ** The generator [uuidv7::uuidv7_generator] *)

Module uuidv7_generator.

(** The CSPRNG behind [generate_random]: what the [n]-th call returns
    (ten bytes, or the exception the platform's entry point raises) and
    how many calls were made so far. *)
Record csprng : Type := mk_csprng {
  outcome : nat -> result (list Z);
  calls : nat
}.

(** [generate_random]: one call of the CSPRNG for ten bytes. *)
Definition generate_random (rng : csprng) : result (list Z) * csprng :=
  (outcome rng (calls rng), mk_csprng (outcome rng) (S (calls rng))).

(** The default constructor and the constructor from a last value. *)
Definition default_last : result uuidv7 := ctor 0 0 0.
Definition seeded (last_uuid : uuidv7) : uuidv7 := last_uuid.

(** The loop that spreads the clock reading over six bytes, [n = i + 1]. *)
Fixpoint millis_loop (n : nat) (millis : Z) (millis_bytes : list Z) : list Z :=
  match n with
  | O => millis_bytes
  | S i => millis_loop i (Z.shiftr millis 8) (<[i := u8 (Z.land millis 0xFF)]> millis_bytes)
  end.

Definition millis_bytes_of (millis : Z) : list Z :=
  millis_loop 6 millis (replicate 6 0).

(** [while (target > 8)] over bytes 15 down to 9: the array and [target]
    when the loop is left. *)
Fixpoint carry_loop (target : nat) (d : list Z) : list Z * nat :=
  match target with
  | O => (d, O)
  | S target' =>
      if (8 <? target)%nat then
        if d !!! target <? 0xFF
        then (<[target := u8 (d !!! target + 1)]> d, O)
        else carry_loop target' (<[target := 0]> d)
      else (d, target)
  end.

(** The [do { ... } while (false)] block over byte 8, byte 7 and byte 6;
    the array is returned as the block leaves it, also when it throws. *)
Definition carry_head (d : list Z) : result unit * list Z :=
  if Z.land (d !!! 8%nat) 0x3F <? 0x3F
  then (inr tt, <[8%nat := u8 (d !!! 8%nat + 1)]> d)
  else
    let d := <[8%nat := u8 (Z.lor 0x00 (Z.shiftl VARIANT 6))]> d in
    if d !!! 7%nat <? 0xFF
    then (inr tt, <[7%nat := u8 (d !!! 7%nat + 1)]> d)
    else
      let d := <[7%nat := 0x00]> d in
      if Z.land (d !!! 6%nat) 0x0F <? 0x0F
      then (inr tt, <[6%nat := u8 (d !!! 6%nat + 1)]> d)
      else
        (inl (sequence_overflow_error
                "Too many UUIDs generated in the same millisecond; sequence counter overflowed."),
         d).

(** The [else] branch of [generate]: the loop, then, if it ran down to
    byte 8, the block. *)
Definition increment_tail (d : list Z) : result unit * list Z :=
  let '(d, target) := carry_loop 15 d in
  if (0 <? target)%nat then carry_head d else (inr tt, d).

(** [generate], with the clock reading [millis] (the count of
    milliseconds since the epoch) and the CSPRNG as inputs.  The result
    is what the call returns or throws, the member [last_generated_]
    after the call, and the CSPRNG after the call. *)
Definition generate (millis : Z) (rng : csprng) (last_generated_ : uuidv7)
    : result uuidv7 * uuidv7 * csprng :=
  let millis_bytes := millis_bytes_of millis in
  let d := data_ last_generated_ in
  if memcmp d millis_bytes 6 <? 0 then
    match generate_random rng with
    | (inl e, rng) => (inl e, last_generated_, rng)
    | (inr rand, rng) =>
        let d := memcpy d 0 millis_bytes 0 6 in
        let d := memcpy d 6 rand 0 2 in
        let d := memcpy d 8 rand 2 8 in
        let d := <[6%nat := u8 (Z.lor (Z.land (Z.shiftr (d !!! 6%nat) 4) (Z.shiftr 0xFF 4))
                                      (Z.shiftl VERSION 4))]> d in
        let d := <[8%nat := u8 (Z.lor (Z.land (Z.shiftr (d !!! 8%nat) 2) (Z.shiftr 0xFF 2))
                                      (Z.shiftl VARIANT 6))]> d in
        (inr (from_array d), from_array d, rng)
    end
  else
    match increment_tail d with
    | (inl e, d) => (inl e, from_array d, rng)
    | (inr _, d) => (inr (from_array d), from_array d, rng)
    end.

(** Calls of [generate] in immediate succession on one generator, one
    clock reading per call: what each call returned or threw, and the
    generator and the CSPRNG after the last one. *)
Fixpoint generate_seq (clock : list Z) (rng : csprng) (last_generated_ : uuidv7)
    : list (result uuidv7) * uuidv7 * csprng :=
  match clock with
  | [] => ([], last_generated_, rng)
  | millis :: clock' =>
      let '(r, last', rng') := generate millis rng last_generated_ in
      let '(rs, last'', rng'') := generate_seq clock' rng' last' in
      (r :: rs, last'', rng'')
  end.

(** One call of [getrandom]: it fails with an [errno], or it delivers
    bytes; [gr_bytes pool] is what the kernel has to give at that call, of
    which the caller receives no more than it asked for. *)
Inductive getrandom_result : Type :=
| gr_error (errno : Z)
| gr_bytes (pool : list Z).

(** [EINTR] of [<cerrno>], with its value on Linux. *)
Definition EINTR : Z := 4.

(** The exception of the [getrandom] variant:
    [std::system_error(errno, std::generic_category(), what)]. *)
Inductive system_error : Type :=
| mk_system_error (code : Z) (what : string).

(** The loop of [generate_random] in its [getrandom] variant, run against
    the answers [os] of the successive calls of [getrandom]; [buffer] is
    the ten-byte array, which starts uninitialised.  The result is the
    array or the exception, with the answers not yet used; it is [None]
    when the answers run out before the loop ends. *)
Fixpoint getrandom_loop (os : list getrandom_result) (buffer : list Z)
    (bytes_read_total : nat) : option ((system_error + list Z) * list getrandom_result) :=
  if (bytes_read_total <? 10)%nat then
    match os with
    | [] => None
    | gr_error errno :: os' =>
        if errno =? EINTR then getrandom_loop os' buffer bytes_read_total
        else Some (inl (mk_system_error errno "getrandom failed to generate random bytes"), os')
    | gr_bytes pool :: os' =>
        let received := take (10 - bytes_read_total) pool in
        let bytes_read_current := length received in
        getrandom_loop os'
          (memcpy buffer bytes_read_total received 0 bytes_read_current)
          (bytes_read_total + bytes_read_current)
    end
  else Some (inr buffer, os).

Definition generate_random_unix (os : list getrandom_result) (buffer : list Z)
    : option ((system_error + list Z) * list getrandom_result) :=
  getrandom_loop os buffer 0.

End uuidv7_generator.

Import uuidv7_generator.

(** ** Reading the specification

    Definitions used to state the properties; they follow the layout table
    and the textual format and do not come from a function of the source. *)

(** The ten bytes of one CSPRNG call. *)
Definition is_array10 (d : list Z) : bool :=
  (length d =? 10)%nat && forallb is_u8 d.

(** Every successful CSPRNG call hands back ten bytes. *)
Definition csprng_ok (rng : csprng) : Prop :=
  forall n bytes, outcome rng n = inr bytes -> is_array10 bytes = true.

(** The order of [operator<] as a relation. *)
Definition uuid_lt (a b : uuidv7) : Prop := ltb a b = true.

(** The value of a hexadecimal digit, in either case. *)
Definition hex_value (c : ascii) : option Z :=
  match String.index 0 (String c EmptyString) "0123456789abcdef" with
  | Some n => Some (Z.of_nat n)
  | None =>
      match String.index 0 (String c EmptyString) "ABCDEF" with
      | Some n => Some (Z.of_nat n + 10)
      | None => None
      end
  end.

Definition is_hex (c : ascii) : bool :=
  match hex_value c with Some _ => true | None => false end.

(** The two lowercase digits [to_string] writes for a byte. *)
Definition hex_hi (b : Z) : ascii := HEX_CHARS.[Z.to_nat (Z.land (Z.shiftr b 4) 0x0F)].
Definition hex_lo (b : Z) : ascii := HEX_CHARS.[Z.to_nat (Z.land b 0x0F)].

(** The textual forms.  [text_form s] is [Some true] for 36 characters with
    a hyphen at each of the positions 8, 13, 18 and 23, [Some false] for 32
    characters, and [None] for anything else. *)
Definition hyphen_positions : list nat := [8; 13; 18; 23]%nat.

Definition text_form (s : string) : option bool :=
  if (String.length s =? 36)%nat then
    if forallb (fun i => Ascii.eqb s.[i] "-") hyphen_positions then Some true else None
  else if (String.length s =? 32)%nat then Some false
  else None.

Definition version_position (hyphens : bool) : nat := if hyphens then 14%nat else 12%nat.
Definition variant_position (hyphens : bool) : nat := if hyphens then 19%nat else 16%nat.

(** The positions that hold a digit: all of them but the hyphens'. *)
Definition digit_positions (hyphens : bool) : list nat :=
  if hyphens
  then List.filter (fun i => negb (existsb (Nat.eqb i) hyphen_positions)) (seq 0 36)
  else seq 0 32.

Definition all_hex (hyphens : bool) (s : string) : bool :=
  forallb (fun i => is_hex s.[i]) (digit_positions hyphens).

(** The top two bits of the digit at the variant position are [0b10]. *)
Definition variant_bits_ok (c : ascii) : bool :=
  match hex_value c with Some n => n / 4 =? VARIANT | None => false end.

(** The number a sequence of bytes spells, most significant byte first. *)
Definition be_value (l : list Z) : Z := fold_left (fun acc b => acc * 256 + b) l 0.

(** The two seeds of the scenarios: zero tail and maximum tail, under a
    timestamp in the year 2112. *)
Definition seed_zero_tail : uuidv7 :=
  from_array [0x04; 0x18; 0x46; 0xe8; 0x1c; 0x98; 0x70; 0x00;
              0x80; 0x00; 0x00; 0x00; 0x00; 0x00; 0x00; 0x00].

Definition seed_max_tail : uuidv7 :=
  from_array [0x04; 0x18; 0x46; 0xe8; 0x1c; 0x98; 0x7f; 0xff;
              0xbf; 0xff; 0xff; 0xff; 0xff; 0xff; 0xff; 0xff].

(** ASCII [tolower]. *)
Definition ascii_lower (c : ascii) : ascii :=
  if (code "A" <=? code c) && (code c <=? code "Z")
  then ascii_of_N (N_of_ascii c + 32) else c.

Fixpoint str_map (f : ascii -> ascii) (s : string) : string :=
  match s with
  | EmptyString => EmptyString
  | String c s' => String (f c) (str_map f s')
  end.

Fixpoint remove_hyphens (s : string) : string :=
  match s with
  | EmptyString => EmptyString
  | String c s' =>
      if Ascii.eqb c "-" then remove_hyphens s' else String c (remove_hyphens s')
  end.

Definition is_lower_hex (c : ascii) : bool :=
  match String.index 0 (String c EmptyString) "0123456789abcdef" with
  | Some _ => true
  | None => false
  end.

Fixpoint str_forallb (f : ascii -> bool) (s : string) : bool :=
  match s with
  | EmptyString => true
  | String c s' => f c && str_forallb f s'
  end.

(** Where the first digit of byte [i] stands in a text. *)
Definition byte_position (hyphens : bool) (i : nat) : nat :=
  if hyphens
  then (2 * i + (if 10 <=? i then 4 else if 8 <=? i then 3
                 else if 6 <=? i then 2 else if 4 <=? i then 1 else 0))%nat
  else (2 * i)%nat.

Definition digit_value (c : ascii) : Z :=
  match hex_value c with Some n => n | None => 0 end.

(** The sixteen bytes a text of hexadecimal digits spells. *)
Definition decoded (hyphens : bool) (s : string) : list Z :=
  map (fun i => digit_value s.[byte_position hyphens i] * 16
                + digit_value s.[byte_position hyphens i + 1])
      (seq 0 16).

(** The bytes the calls of [getrandom] answered so far have to give, in
    order; a failed call gives none. *)
Fixpoint pooled (os : list getrandom_result) : list Z :=
  match os with
  | [] => []
  | gr_error _ :: os' => pooled os'
  | gr_bytes pool :: os' => pool ++ pooled os'
  end.

Definition is_eintr (r : getrandom_result) : bool :=
  match r with gr_error errno => errno =? EINTR | gr_bytes _ => false end.

Definition is_failure (r : getrandom_result) : bool :=
  match r with gr_error errno => negb (errno =? EINTR) | gr_bytes _ => false end.

(** The value of scenario B. *)
Definition scenario_b : uuidv7 :=
  from_array [0x01; 0x96; 0x53; 0x47; 0xe5; 0x6d; 0x75; 0x71;
              0xa1; 0xbb; 0x61; 0x20; 0xdb; 0xa3; 0xa6; 0x45].

(** ** Bytes and arrays *)

Lemma is_u8_spec z : is_u8 z = true <-> 0 <= z < 256.
Proof. unfold is_u8. rewrite andb_true_iff, Z.leb_le, Z.ltb_lt. tauto. Qed.

Lemma u8_range z : 0 <= u8 z < 256.
Proof. unfold u8. apply Z.mod_pos_bound. lia. Qed.

Lemma u8_id z : 0 <= z < 256 -> u8 z = z.
Proof. intros H. unfold u8. apply Z.mod_small. exact H. Qed.

Lemma is_u8_u8 z : is_u8 (u8 z) = true.
Proof. apply is_u8_spec, u8_range. Qed.

(** A property of bytes checked on the 256 of them holds of every byte. *)
Lemma forall_u8 (P : Z -> bool) :
  forallb P (map Z.of_nat (seq 0 256)) = true ->
  forall b, 0 <= b < 256 -> P b = true.
Proof.
  intros Hall b Hb.
  rewrite forallb_forall in Hall. apply Hall.
  apply in_map_iff. exists (Z.to_nat b). split; [lia|].
  apply in_seq. lia.
Qed.

(** An array of sixteen bytes is sixteen bytes: [destruct_bytes d H] turns
    [H : is_array16 d = true] (or [is_array10]) into the elements of [d]
    and their ranges. *)
Ltac split_forallb H :=
  cbn [forallb] in H;
  repeat match type of H with
         | (_ && _) = true =>
             let H1 := fresh "Hb" in
             apply andb_prop in H; destruct H as [H1 H];
             apply is_u8_spec in H1
         end;
  clear H.

Tactic Notation "destruct_bytes" integer(n) ident(d) hyp(H) :=
  let Hlen := fresh "Hlen" in
  apply andb_prop in H; destruct H as [Hlen H];
  apply Nat.eqb_eq in Hlen;
  do n (destruct d as [|?b d]; [discriminate Hlen|]);
  destruct d; [|discriminate Hlen];
  clear Hlen; split_forallb H.

(** ** Import from raw bytes *)

(** C8. [from_bytes] checks the version nibble of byte 6 and the variant
    bits of byte 8 and nothing else: when both are right the sixteen bytes
    come back unchanged from [get_bytes], when one is wrong the call
    throws [invalid_format_error]; the pointer form copies the sixteen
    bytes and does the same, and a null pointer is an
    [invalid_format_error] as well. *)
Theorem from_bytes_validates_fixed_bits (b : list Z) :
  is_array16 b = true ->
  (version_of b = VERSION /\ variant_of b = VARIANT ->
   exists u, from_bytes b = inr u /\ get_bytes u = b) /\
  (~ (version_of b = VERSION /\ variant_of b = VARIANT) ->
   exists what, from_bytes b = inl (invalid_format_error what)) /\
  from_bytes_ptr (Some b) = from_bytes b /\
  (exists what, from_bytes_ptr None = inl (invalid_format_error what)).
Proof.
  intros Hb. repeat split.
  - intros [Hver Hvar]. unfold from_bytes.
    unfold version_of in Hver. unfold variant_of in Hvar.
    change 15 with 0x0F. change 3 with 0x03.
    rewrite Hver, Hvar, !Z.eqb_refl. cbn [negb].
    eexists. split; reflexivity.
  - intros Hbad. unfold from_bytes.
    change 15 with 0x0F. change 3 with 0x03.
    fold (version_of b). fold (variant_of b).
    destruct (Z.eqb_spec (version_of b) VERSION) as [Hver|Hver]; cbn [negb].
    + destruct (Z.eqb_spec (variant_of b) VARIANT) as [Hvar|Hvar]; cbn [negb].
      * exfalso. apply Hbad. split; assumption.
      * eexists. reflexivity.
    + eexists. reflexivity.
  - unfold from_bytes_ptr. f_equal.
    unfold is_array16 in Hb. destruct_bytes 16 b Hb. reflexivity.
  - eexists. reflexivity.
Qed.

Lemma from_bytes_validates_fixed_bits_witness :
  exists u,
    from_bytes [1; 150; 83; 71; 229; 109; 117; 113; 161; 187; 97; 32; 219; 163; 166; 69] = inr u /\
    get_bytes u = [1; 150; 83; 71; 229; 109; 117; 113; 161; 187; 97; 32; 219; 163; 166; 69].
Proof.
  destruct (from_bytes_validates_fixed_bits
              [1; 150; 83; 71; 229; 109; 117; 113; 161; 187; 97; 32; 219; 163; 166; 69]
              eq_refl) as [Hok _].
  apply Hok. split; reflexivity.
Defined.

(** ** The constructor from fields *)

Lemma byte_of_shift x k :
  0 <= k -> u8 (Z.land (Z.shiftr x k) 0xFF) = (x / 2 ^ k) mod 256.
Proof.
  intros Hk. change 0xFF with (Z.ones 8).
  rewrite Z.land_ones by lia. rewrite Z.shiftr_div_pow2 by lia.
  unfold u8. change (2 ^ 8) with 256. apply Z.mod_mod. lia.
Qed.

Lemma byte_of_low x : u8 (Z.land x 0xFF) = x mod 256.
Proof.
  change 0xFF with (Z.ones 8). rewrite Z.land_ones by lia.
  unfold u8. change (2 ^ 8) with 256. apply Z.mod_mod. lia.
Qed.

Lemma bytes_of_48 x :
  (x / 2 ^ 40) mod 256 * 2 ^ 40 + (x / 2 ^ 32) mod 256 * 2 ^ 32
  + (x / 2 ^ 24) mod 256 * 2 ^ 24 + (x / 2 ^ 16) mod 256 * 2 ^ 16
  + (x / 2 ^ 8) mod 256 * 2 ^ 8 + x mod 256 = x mod 2 ^ 48.
Proof.
  Z.div_mod_to_equations; lia.
Qed.

Lemma bytes_of_62 x :
  0 <= x <= MAX_RAND_B ->
  (x / 2 ^ 56) * 2 ^ 56 + (x / 2 ^ 48) mod 256 * 2 ^ 48
  + (x / 2 ^ 40) mod 256 * 2 ^ 40 + (x / 2 ^ 32) mod 256 * 2 ^ 32
  + (x / 2 ^ 24) mod 256 * 2 ^ 24 + (x / 2 ^ 16) mod 256 * 2 ^ 16
  + (x / 2 ^ 8) mod 256 * 2 ^ 8 + x mod 256 = x.
Proof.
  unfold MAX_RAND_B. intros Hx. Z.div_mod_to_equations; lia.
Qed.

(** Byte 6 as the constructor and the generator build it: the version in
    the high nibble, [q] in the low one. *)
Lemma version_byte q :
  0 <= q < 16 ->
  let x := u8 (Z.lor (Z.land q (Z.shiftr 0xFF 4)) (Z.shiftl VERSION 4)) in
  0 <= x < 256 /\ Z.land x 0x0F = q /\ Z.land (Z.shiftr x 4) 0x0F = VERSION.
Proof.
  intros Hq.
  pose (P := fun q =>
    (16 <=? q) ||
    let x := u8 (Z.lor (Z.land q (Z.shiftr 0xFF 4)) (Z.shiftl VERSION 4)) in
    is_u8 x && (Z.land x 0x0F =? q) && (Z.land (Z.shiftr x 4) 0x0F =? VERSION)).
  assert (HP : P q = true) by (apply forall_u8; [vm_compute; reflexivity | lia]).
  unfold P in HP. apply orb_prop in HP. destruct HP as [HP|HP].
  - apply Z.leb_le in HP. lia.
  - cbv zeta in HP. rewrite !andb_true_iff, !Z.eqb_eq, is_u8_spec in HP.
    cbv zeta. tauto.
Qed.

(** Byte 8 likewise: the variant in the top two bits, [q] below. *)
Lemma variant_byte q :
  0 <= q < 64 ->
  let x := u8 (Z.lor (Z.land q (Z.shiftr 0xFF 2)) (Z.shiftl VARIANT 6)) in
  0 <= x < 256 /\ Z.land x 0x3F = q /\ Z.land (Z.shiftr x 6) 0x03 = VARIANT.
Proof.
  intros Hq.
  pose (P := fun q =>
    (64 <=? q) ||
    let x := u8 (Z.lor (Z.land q (Z.shiftr 0xFF 2)) (Z.shiftl VARIANT 6)) in
    is_u8 x && (Z.land x 0x3F =? q) && (Z.land (Z.shiftr x 6) 0x03 =? VARIANT)).
  assert (HP : P q = true) by (apply forall_u8; [vm_compute; reflexivity | lia]).
  unfold P in HP. apply orb_prop in HP. destruct HP as [HP|HP].
  - apply Z.leb_le in HP. lia.
  - cbv zeta in HP. rewrite !andb_true_iff, !Z.eqb_eq, is_u8_spec in HP.
    cbv zeta. tauto.
Qed.

Lemma mod256_is_u8 x : is_u8 (x mod 256) = true.
Proof. apply is_u8_spec, Z.mod_pos_bound. lia. Qed.

Lemma encode_fields ts a b :
  0 <= a <= MAX_RAND_A -> 0 <= b <= MAX_RAND_B ->
  let d := encode ts a b in
  is_array16 d = true /\ version_of d = VERSION /\ variant_of d = VARIANT /\
  timestamp_of d = ts mod 2 ^ 48 /\ rand_a_of d = a /\ rand_b_of d = b.
Proof.
  intros Ha Hb.
  assert (Hqa : 0 <= Z.shiftr a 8 < 16).
  { rewrite Z.shiftr_div_pow2 by lia. unfold MAX_RAND_A in Ha.
    Z.div_mod_to_equations; lia. }
  assert (Hqb : 0 <= Z.shiftr b 56 < 64).
  { rewrite Z.shiftr_div_pow2 by lia. unfold MAX_RAND_B in Hb.
    Z.div_mod_to_equations; lia. }
  pose proof (version_byte _ Hqa) as Hv. pose proof (variant_byte _ Hqb) as Hw.
  cbv zeta in Hv, Hw. destruct Hv as (Hv1 & Hv2 & Hv3). destruct Hw as (Hw1 & Hw2 & Hw3).
  cbv zeta.
  unfold is_array16, version_of, variant_of, timestamp_of, rand_a_of, rand_b_of.
  cbn [encode replicate list_insert insert lookup_total list_lookup_total length
       forallb Nat.eqb andb].
  rewrite Hv2, Hv3, Hw2, Hw3.
  rewrite !byte_of_shift, !byte_of_low by lia.
  rewrite !mod256_is_u8.
  apply is_u8_spec in Hv1. apply is_u8_spec in Hw1. rewrite Hv1, Hw1.
  repeat split.
  - apply bytes_of_48.
  - rewrite Z.shiftr_div_pow2 by lia. unfold MAX_RAND_A in Ha.
    Z.div_mod_to_equations; lia.
  - rewrite Z.shiftr_div_pow2 by lia. apply bytes_of_62. exact Hb.
Qed.

(** C9, as the code has it.  The constructor asserts two of the three
    ranges: a [rand_a] above [0x0FFF] or a [rand_b] above
    [0x3FFFFFFFFFFFFFFF] fails its assertion.  [unix_ts_ms] is not
    asserted: its low 48 bits are encoded, whatever the bits above them.
    For every [rand_a] and [rand_b] in range the result is the encoding of
    the layout: sixteen bytes, the timestamp (modulo [2^48]) big-endian in
    bytes 0 to 5, version 7, [rand_a] in the low nibble of byte 6 and in
    byte 7, variant [0b10], [rand_b] in the low six bits of byte 8 and in
    bytes 9 to 15. *)
Theorem ctor_asserts_rand_and_encodes (unix_ts_ms rand_a rand_b : Z) :
  0 <= unix_ts_ms < 2 ^ 64 -> 0 <= rand_a < 2 ^ 16 -> 0 <= rand_b < 2 ^ 64 ->
  (MAX_RAND_A < rand_a \/ MAX_RAND_B < rand_b ->
   exists expr, ctor unix_ts_ms rand_a rand_b = inl (assertion_failure expr)) /\
  (rand_a <= MAX_RAND_A -> rand_b <= MAX_RAND_B ->
   exists u, ctor unix_ts_ms rand_a rand_b = inr u /\
     is_array16 (get_bytes u) = true /\
     version_of (get_bytes u) = 7 /\ variant_of (get_bytes u) = 2 /\
     timestamp_of (get_bytes u) = unix_ts_ms mod 2 ^ 48 /\
     rand_a_of (get_bytes u) = rand_a /\ rand_b_of (get_bytes u) = rand_b).
Proof.
  intros Hts Ha Hb. split.
  - intros Hout. unfold ctor.
    destruct (Z.leb_spec rand_a MAX_RAND_A) as [Hle|Hgt]; cbn [negb].
    + destruct (Z.leb_spec rand_b MAX_RAND_B) as [Hle'|Hgt']; cbn [negb].
      * lia.
      * eexists. reflexivity.
    + eexists. reflexivity.
  - intros Hle Hle'. unfold ctor.
    destruct (Z.leb_spec rand_a MAX_RAND_A); [|lia].
    destruct (Z.leb_spec rand_b MAX_RAND_B); [|lia].
    cbn [negb]. eexists. split; [reflexivity|].
    unfold get_bytes. cbn [data_].
    apply (encode_fields unix_ts_ms rand_a rand_b); lia.
Qed.

Lemma ctor_asserts_rand_and_encodes_witness :
  exists u, ctor 0x0196534 0x571 0x21bb6120dba3a645 = inr u /\
    is_array16 (get_bytes u) = true /\
    version_of (get_bytes u) = 7 /\ variant_of (get_bytes u) = 2 /\
    timestamp_of (get_bytes u) = 0x0196534 mod 2 ^ 48 /\
    rand_a_of (get_bytes u) = 0x571 /\ rand_b_of (get_bytes u) = 0x21bb6120dba3a645.
Proof.
  destruct (ctor_asserts_rand_and_encodes 0x0196534 0x571 0x21bb6120dba3a645) as [_ Hok].
  - lia.
  - lia.
  - lia.
  - apply Hok; unfold MAX_RAND_A, MAX_RAND_B; lia.
Defined.

(** A timestamp of 49 bits passes the constructor: no assertion fails, and
    the value is the one a timestamp of zero gives. *)
Lemma ctor_accepts_49_bit_timestamp :
  ~ (2 ^ 48 < 2 ^ 48) /\
  0 <= 2 ^ 48 < 2 ^ 64 /\
  ctor (2 ^ 48) 0 0 = inr (from_array [0; 0; 0; 0; 0; 0; 112; 0; 128; 0; 0; 0; 0; 0; 0; 0]) /\
  ctor (2 ^ 48) 0 0 = ctor 0 0 0.
Proof. repeat split; try lia; reflexivity. Qed.

(** ** Parsing: the throwing and the non-throwing form *)

Lemma ctor_zero :
  ctor 0 0 0 = inr (from_array [0; 0; 0; 0; 0; 0; 112; 0; 128; 0; 0; 0; 0; 0; 0; 0]).
Proof. reflexivity. Qed.

(** C7. [try_parse] returns a value exactly when [parse] returns one, and
    then the same value; in each of the three failures of [parse] (format,
    version, variant, told apart by what [parse_inner] reports and by the
    message of the exception) [try_parse] returns nothing. *)
Theorem try_parse_agrees_with_parse (s : string) :
  try_parse s = match parse s with inr u => Some u | inl _ => None end /\
  (forall u, parse s = inr u <-> try_parse s = Some u) /\
  (fst (parse_inner s (encode 0 0 0)) = InvalidFormat ->
   parse s = inl (invalid_format_error "Invalid UUID Version 7 string format")
   /\ try_parse s = None) /\
  (fst (parse_inner s (encode 0 0 0)) = InvalidVersion ->
   parse s = inl (invalid_format_error "Invalid UUID Version 7 version")
   /\ try_parse s = None) /\
  (fst (parse_inner s (encode 0 0 0)) = InvalidVariant ->
   parse s = inl (invalid_format_error "Invalid UUID Version 7 variant")
   /\ try_parse s = None).
Proof.
  unfold parse, try_parse. rewrite ctor_zero. cbn [data_].
  change (encode 0 0 0) with [0; 0; 0; 0; 0; 0; 112; 0; 128; 0; 0; 0; 0; 0; 0; 0].
  destruct (parse_inner s _) as [[] d]; cbn [fst].
  all: repeat split; try discriminate; try congruence.
Qed.

Lemma try_parse_agrees_with_parse_witness :
  parse "75f50a24-995d-4606-bf3e-7f6c5b76c5c1"
  = inl (invalid_format_error "Invalid UUID Version 7 version")
  /\ try_parse "75f50a24-995d-4606-bf3e-7f6c5b76c5c1" = None.
Proof.
  destruct (try_parse_agrees_with_parse "75f50a24-995d-4606-bf3e-7f6c5b76c5c1")
    as (_ & _ & _ & Hversion & _).
  apply Hversion. reflexivity.
Defined.

(** ** Hexadecimal digits *)

Lemma hex_to_int_value c :
  hex_to_int c = match hex_value c with Some n => n | None => 0xFF end.
Proof. destruct c as [[] [] [] [] [] [] [] []]; reflexivity. Qed.

Lemma hex_value_range c n : hex_value c = Some n -> 0 <= n < 16.
Proof.
  intros H. destruct c as [[] [] [] [] [] [] [] []]; vm_compute in H;
    first [discriminate H | injection H as <-; lia].
Qed.

Lemma is_hex_spec c : is_hex c = negb (hex_to_int c =? 0xFF).
Proof. destruct c as [[] [] [] [] [] [] [] []]; reflexivity. Qed.

Lemma variant_bits_spec c :
  (hex_to_int c =? 0xFF) = false ->
  variant_bits_ok c = (Z.shiftr (Z.land (hex_to_int c) 12) 2 =? VARIANT).
Proof. destruct c as [[] [] [] [] [] [] [] []]; intros H; try discriminate H; reflexivity. Qed.

Lemma hex_digits_of_byte b :
  0 <= b < 256 ->
  (hex_to_int (hex_hi b) =? 0xFF) = false /\
  (hex_to_int (hex_lo b) =? 0xFF) = false /\
  u8 (Z.lor (Z.shiftl (hex_to_int (hex_hi b)) 4) (hex_to_int (hex_lo b))) = b.
Proof.
  intros Hb.
  pose (P := fun b =>
    negb (hex_to_int (hex_hi b) =? 0xFF) && negb (hex_to_int (hex_lo b) =? 0xFF)
    && (u8 (Z.lor (Z.shiftl (hex_to_int (hex_hi b)) 4) (hex_to_int (hex_lo b))) =? b)).
  assert (HP : P b = true) by (apply forall_u8; [vm_compute; reflexivity | lia]).
  unfold P in HP. rewrite !andb_true_iff, !negb_true_iff, Z.eqb_eq in HP. tauto.
Qed.

Lemma hex_hi_version b :
  0 <= b < 256 -> Z.land (Z.shiftr b 4) 0x0F = VERSION -> hex_hi b = "7"%char.
Proof. intros _ H. unfold hex_hi. rewrite H. reflexivity. Qed.

Lemma hex_hi_variant b :
  0 <= b < 256 -> Z.land (Z.shiftr b 6) 0x03 = VARIANT ->
  (Z.shiftr (Z.land (hex_to_int (hex_hi b)) 12) 2 =? VARIANT) = true.
Proof.
  intros Hb Hv.
  pose (P := fun b =>
    negb (Z.land (Z.shiftr b 6) 0x03 =? VARIANT)
    || (Z.shiftr (Z.land (hex_to_int (hex_hi b)) 12) 2 =? VARIANT)).
  assert (HP : P b = true) by (apply forall_u8; [vm_compute; reflexivity | lia]).
  unfold P in HP. rewrite Hv in HP. exact HP.
Qed.

(** ** Round trip *)

Ltac fold_hex_digits :=
  repeat match goal with
         | |- context [HEX_CHARS.[Z.to_nat (Z.land (Z.shiftr ?b 4) 15)]] =>
             change (HEX_CHARS.[Z.to_nat (Z.land (Z.shiftr b 4) 15)]) with (hex_hi b)
         | |- context [HEX_CHARS.[Z.to_nat (Z.land ?b 15)]] =>
             change (HEX_CHARS.[Z.to_nat (Z.land b 15)]) with (hex_lo b)
         end.

Ltac digits_of_bytes :=
  repeat match goal with
         | H : 0 <= ?b < 256 |- _ =>
             let H1 := fresh "Hhi" in
             let H2 := fresh "Hlo" in
             let H3 := fresh "Hpair" in
             destruct (hex_digits_of_byte b H) as (H1 & H2 & H3); clear H
         end.

Ltac rewrite_digits :=
  repeat match goal with
         | H : (hex_to_int ?c =? 255) = false |- context [hex_to_int ?c =? 255] =>
             rewrite H
         end.

Lemma parse_to_string (u : uuidv7) (include_hyphens : bool) :
  valid u = true -> parse (to_string u include_hyphens) = inr u.
Proof.
  intros Hv. destruct u as [d]. unfold valid in Hv. cbn [data_] in Hv.
  apply andb_prop in Hv. destruct Hv as [Hv Hvar].
  apply andb_prop in Hv. destruct Hv as [Harr Hver].
  apply Z.eqb_eq in Hver, Hvar. unfold is_array16 in Harr.
  destruct_bytes 16 d Harr.
  unfold version_of in Hver. unfold variant_of in Hvar.
  cbn [lookup_total list_lookup_total] in Hver, Hvar.
  assert (Hseven : Ascii.eqb (hex_hi b5) "7" = true).
  { rewrite (hex_hi_version b5 Hb5 Hver). reflexivity. }
  pose proof (hex_hi_variant b7 Hb7 Hvar) as Hten.
  unfold parse. rewrite ctor_zero. cbn [data_].
  destruct include_hyphens.
  - lazy beta iota zeta delta
      [to_string to_string_loop str_set str_make get_bytes data_ Nat.eqb andb orb
       Nat.add lookup_total list_lookup_total].
    fold_hex_digits. digits_of_bytes.
    unfold parse_inner.
    lazy beta iota zeta delta [String.length char_at String.get Nat.eqb].
    rewrite !Ascii.eqb_refl.
    lazy beta iota zeta delta [negb orb parse_fields char_at String.get].
    rewrite Hseven. rewrite_digits. rewrite Hten.
    lazy beta iota zeta delta
      [negb parse_loop andb orb Nat.eqb Nat.add char_at String.get list_insert insert].
    rewrite_digits. lazy beta iota delta [orb].
    repeat match goal with H : u8 _ = _ |- _ => rewrite H; clear H end.
    reflexivity.
  - lazy beta iota zeta delta
      [to_string to_string_loop str_set str_make get_bytes data_ Nat.eqb andb orb
       Nat.add lookup_total list_lookup_total].
    fold_hex_digits. digits_of_bytes.
    unfold parse_inner.
    lazy beta iota zeta delta
      [String.length char_at String.get Nat.eqb parse_fields].
    rewrite Hseven. rewrite_digits. rewrite Hten.
    lazy beta iota zeta delta
      [negb parse_loop andb orb Nat.eqb Nat.add char_at String.get list_insert insert].
    rewrite_digits. lazy beta iota delta [orb].
    repeat match goal with H : u8 _ = _ |- _ => rewrite H; clear H end.
    reflexivity.
Qed.

(** C5. Every valid identifier survives [to_string] followed by [parse],
    with and without hyphens.  The two spellings of scenario B parse to
    equal values, and [to_string] gives each spelling back, lowercase, 36
    and 32 characters long. *)
Theorem parse_to_string_roundtrip (u : uuidv7) :
  valid u = true ->
  parse (to_string u true) = inr u /\
  parse (to_string u false) = inr u /\
  (exists v w,
     parse "01965347-e56d-7571-a1bb-6120dba3a645" = inr v /\
     parse "01965347e56d7571a1bb6120dba3a645" = inr w /\
     eqb v w = true /\ v = w /\
     to_string w true = "01965347-e56d-7571-a1bb-6120dba3a645"%string /\
     to_string v false = "01965347e56d7571a1bb6120dba3a645"%string /\
     String.length (to_string w true) = 36%nat /\
     String.length (to_string v false) = 32%nat).
Proof.
  intros Hv. split; [|split].
  - apply parse_to_string. exact Hv.
  - apply parse_to_string. exact Hv.
  - exists (from_array [1; 150; 83; 71; 229; 109; 117; 113; 161; 187; 97; 32; 219; 163; 166; 69]).
    exists (from_array [1; 150; 83; 71; 229; 109; 117; 113; 161; 187; 97; 32; 219; 163; 166; 69]).
    repeat split; vm_compute; reflexivity.
Qed.

Lemma parse_to_string_roundtrip_witness :
  parse (to_string (from_array [1; 150; 83; 71; 229; 109; 117; 113; 161; 187; 97; 32; 219; 163; 166; 69]) true)
  = inr (from_array [1; 150; 83; 71; 229; 109; 117; 113; 161; 187; 97; 32; 219; 163; 166; 69]).
Proof.
  apply (parse_to_string_roundtrip
           (from_array [1; 150; 83; 71; 229; 109; 117; 113; 161; 187; 97; 32; 219; 163; 166; 69])).
  vm_compute. reflexivity.
Defined.

(** ** Parsing: the checks and their order *)

Lemma text_form_length (s : string) (h : bool) :
  text_form s = Some h -> String.length s = (if h then 36%nat else 32%nat).
Proof.
  unfold text_form.
  destruct (Nat.eqb_spec (String.length s) 36) as [H36|H36].
  - destruct (forallb _ _); intros H; inversion H. exact H36.
  - destruct (Nat.eqb_spec (String.length s) 32) as [H32|H32];
      intros H; inversion H. exact H32.
Qed.

Lemma parse_inner_bad_form s r :
  text_form s = None -> parse_inner s r = (InvalidFormat, r).
Proof.
  unfold text_form, parse_inner, hyphen_positions. cbn [forallb].
  destruct (String.length s =? 36)%nat.
  - destruct (Ascii.eqb s.[8] "-"), (Ascii.eqb s.[13] "-"),
      (Ascii.eqb s.[18] "-"), (Ascii.eqb s.[23] "-");
      cbn [andb negb orb]; intros H; first [discriminate H | reflexivity].
  - destruct (String.length s =? 32)%nat; intros H;
      first [discriminate H | reflexivity].
Qed.

Lemma parse_inner_good_form s r h :
  text_form s = Some h ->
  parse_inner s r = parse_fields s h (version_position h) (variant_position h) r.
Proof.
  unfold text_form, parse_inner, hyphen_positions. cbn [forallb].
  destruct (String.length s =? 36)%nat.
  - destruct (Ascii.eqb s.[8] "-"), (Ascii.eqb s.[13] "-"),
      (Ascii.eqb s.[18] "-"), (Ascii.eqb s.[23] "-");
      cbn [andb negb orb]; intros H; inversion H. reflexivity.
  - destruct (String.length s =? 32)%nat; intros H; inversion H. reflexivity.
Qed.

Ltac scan_digits :=
  repeat match goal with
         | |- fst (if (if ?a then true else ?b) then _ else _) = _ =>
             destruct a; [reflexivity|];
             destruct b; [reflexivity|];
             lazy beta iota
         end.

(** The loop reports [Success] exactly when every digit position holds a
    hexadecimal digit. *)
Lemma parse_loop_all_hex (s : string) (h : bool) (r : list Z) :
  String.length s = (if h then 36%nat else 32%nat) ->
  fst (parse_loop 16 h s 0 0 r) = (if all_hex h s then Success else InvalidFormat).
Proof.
  intros Hlen. destruct h.
  - do 36 (destruct s as [|?c s]; [discriminate Hlen|]).
    destruct s; [|discriminate Hlen]. clear Hlen.
    lazy beta iota zeta delta
      [all_hex digit_positions hyphen_positions List.filter seq existsb forallb
       parse_loop andb orb negb Nat.eqb Nat.add char_at String.get].
    rewrite !is_hex_spec.
    scan_digits. reflexivity.
  - do 32 (destruct s as [|?c s]; [discriminate Hlen|]).
    destruct s; [|discriminate Hlen]. clear Hlen.
    lazy beta iota zeta delta
      [all_hex digit_positions hyphen_positions List.filter seq existsb forallb
       parse_loop andb orb negb Nat.eqb Nat.add char_at String.get].
    rewrite !is_hex_spec.
    scan_digits. reflexivity.
Qed.

Lemma parse_fields_outcome (s : string) (h : bool) (vi ri : nat) (r : list Z) :
  fst (parse_fields s h vi ri r) =
  if negb (Ascii.eqb s.[vi] "7") then InvalidVersion
  else if negb (is_hex s.[ri]) then InvalidFormat
  else if negb (variant_bits_ok s.[ri]) then InvalidVariant
  else fst (parse_loop 16 h s 0 0 r).
Proof.
  unfold parse_fields.
  destruct (Ascii.eqb s.[vi] "7"); cbn [negb]; [|reflexivity].
  rewrite is_hex_spec.
  destruct (hex_to_int s.[ri] =? 255) eqn:Hhex; cbn [negb]; [reflexivity|].
  rewrite (variant_bits_spec _ Hhex).
  destruct (Z.shiftr (Z.land (hex_to_int s.[ri]) 12) 2 =? VARIANT);
    cbn [negb]; reflexivity.
Qed.

(** What [parse_inner] reports for a text of one of the two forms. *)
Lemma parse_inner_outcome (s : string) (r : list Z) (h : bool) :
  text_form s = Some h ->
  fst (parse_inner s r) =
  if negb (Ascii.eqb s.[version_position h] "7") then InvalidVersion
  else if negb (is_hex s.[variant_position h]) then InvalidFormat
  else if negb (variant_bits_ok s.[variant_position h]) then InvalidVariant
  else if all_hex h s then Success else InvalidFormat.
Proof.
  intros Hform.
  rewrite (parse_inner_good_form s r h Hform), parse_fields_outcome.
  rewrite (parse_loop_all_hex s h r (text_form_length s h Hform)).
  reflexivity.
Qed.

Lemma variant_bits_ok_is_hex c : variant_bits_ok c = true -> is_hex c = true.
Proof. unfold variant_bits_ok, is_hex. destruct (hex_value c); [reflexivity|discriminate]. Qed.

Lemma ascii_eqb_false (a b : ascii) : a <> b -> Ascii.eqb a b = false.
Proof. intros H. apply Ascii.eqb_neq. exact H. Qed.

(** C10. The order of the checks of [parse_inner].  A text of neither form
    (wrong length, or 36 characters with a hyphen missing at 8, 13, 18 or
    23) is [InvalidFormat] before anything else.  Then a character other
    than [7] at the version position is [InvalidVersion], whatever the
    other characters are, also when some of them are not hexadecimal
    digits.  Then the character at the variant position: not a digit is
    [InvalidFormat], a digit whose top two bits are not [0b10] is
    [InvalidVariant].  Only then are the digit positions scanned:
    [Success] when all hold hexadecimal digits and [InvalidFormat]
    otherwise. *)
Theorem parse_inner_check_order (s : string) (r : list Z) :
  (text_form s = None -> fst (parse_inner s r) = InvalidFormat) /\
  (forall h, text_form s = Some h ->
     (s.[version_position h] <> "7"%char ->
      fst (parse_inner s r) = InvalidVersion) /\
     (s.[version_position h] <> "7"%char -> all_hex h s = false ->
      fst (parse_inner s r) = InvalidVersion) /\
     (s.[version_position h] = "7"%char ->
      is_hex s.[variant_position h] = false ->
      fst (parse_inner s r) = InvalidFormat) /\
     (s.[version_position h] = "7"%char ->
      is_hex s.[variant_position h] = true ->
      variant_bits_ok s.[variant_position h] = false ->
      fst (parse_inner s r) = InvalidVariant) /\
     (s.[version_position h] = "7"%char ->
      variant_bits_ok s.[variant_position h] = true ->
      fst (parse_inner s r) = if all_hex h s then Success else InvalidFormat)).
Proof.
  split.
  - intros Hform. rewrite (parse_inner_bad_form s r Hform). reflexivity.
  - intros h Hform. rewrite (parse_inner_outcome s r h Hform).
    repeat split.
    + intros Hver. rewrite (ascii_eqb_false _ _ Hver). reflexivity.
    + intros Hver _. rewrite (ascii_eqb_false _ _ Hver). reflexivity.
    + intros Hver Hhex. rewrite Hver, Ascii.eqb_refl, Hhex. reflexivity.
    + intros Hver Hhex Hbits. rewrite Hver, Ascii.eqb_refl, Hhex, Hbits. reflexivity.
    + intros Hver Hbits.
      rewrite Hver, Ascii.eqb_refl, (variant_bits_ok_is_hex _ Hbits), Hbits.
      reflexivity.
Qed.

Lemma parse_inner_check_order_witness :
  fst (parse_inner "75f50a24-995d-4606-bf3e-7f6c5b76c5cZ"
         [0; 0; 0; 0; 0; 0; 112; 0; 128; 0; 0; 0; 0; 0; 0; 0]) = InvalidVersion.
Proof.
  destruct (parse_inner_check_order "75f50a24-995d-4606-bf3e-7f6c5b76c5cZ"
              [0; 0; 0; 0; 0; 0; 112; 0; 128; 0; 0; 0; 0; 0; 0; 0]) as [_ Hform].
  destruct (Hform true eq_refl) as (_ & Hboth & _).
  apply Hboth.
  - vm_compute; discriminate.
  - reflexivity.
Defined.

(** What [parse] returns or throws, from what [parse_inner] reports. *)
Lemma parse_of_outcome (s : string) :
  match fst (parse_inner s [0; 0; 0; 0; 0; 0; 112; 0; 128; 0; 0; 0; 0; 0; 0; 0]) with
  | Success => exists u, parse s = inr u
  | InvalidVersion => parse s = inl (invalid_format_error "Invalid UUID Version 7 version")
  | InvalidVariant => parse s = inl (invalid_format_error "Invalid UUID Version 7 variant")
  | InvalidFormat => parse s = inl (invalid_format_error "Invalid UUID Version 7 string format")
  end.
Proof.
  unfold parse. rewrite ctor_zero. cbn [data_].
  destruct (parse_inner s _) as [[] d]; cbn [fst]; try reflexivity.
  eexists. reflexivity.
Qed.

(** C6. [parse] returns a value exactly for the texts of one of the two
    forms (36 characters with hyphens at 8, 13, 18 and 23, or 32
    characters) that have [7] at the version position, a digit with top
    bits [0b10] at the variant position and hexadecimal digits at every
    digit position.  Each failure has the kind of its defect, told by the
    message of the exception: a text of neither form is a format error; a
    text of one of the forms with another character than [7] at the
    version position is a version error; with the version right, a digit
    at the variant position whose top two bits are not [0b10] is a variant
    error; with the version right, a character that is not a hexadecimal
    digit, at the variant position or (the variant being right) at any
    digit position, is a format error.  The version-4 text of scenario C
    is a version error and not a format error. *)
Theorem parse_accepts_two_forms (s : string) :
  ((exists u, parse s = inr u) <->
   (exists h, text_form s = Some h /\ s.[version_position h] = "7"%char /\
      variant_bits_ok s.[variant_position h] = true /\ all_hex h s = true)) /\
  (text_form s = None ->
   parse s = inl (invalid_format_error "Invalid UUID Version 7 string format")) /\
  (forall h, text_form s = Some h ->
     (s.[version_position h] <> "7"%char ->
      parse s = inl (invalid_format_error "Invalid UUID Version 7 version")) /\
     (s.[version_position h] = "7"%char ->
      is_hex s.[variant_position h] = true ->
      variant_bits_ok s.[variant_position h] = false ->
      parse s = inl (invalid_format_error "Invalid UUID Version 7 variant")) /\
     (s.[version_position h] = "7"%char ->
      is_hex s.[variant_position h] = false ->
      parse s = inl (invalid_format_error "Invalid UUID Version 7 string format")) /\
     (s.[version_position h] = "7"%char ->
      variant_bits_ok s.[variant_position h] = true ->
      all_hex h s = false ->
      parse s = inl (invalid_format_error "Invalid UUID Version 7 string format"))) /\
  parse "75f50a24-995d-4606-bf3e-7f6c5b76c5c1"
  = inl (invalid_format_error "Invalid UUID Version 7 version") /\
  parse "75f50a24-995d-4606-bf3e-7f6c5b76c5c1"
  <> inl (invalid_format_error "Invalid UUID Version 7 string format").
Proof.
  pose proof (parse_of_outcome s) as Hparse.
  split; [|split; [|split; [|split]]].
  - split.
    + intros [u Hu].
      destruct (text_form s) as [h|] eqn:Hform.
      * rewrite (parse_inner_outcome s _ h Hform) in Hparse.
        exists h. split; [reflexivity|].
        destruct (Ascii.eqb_spec s.[version_position h] "7") as [Hver|Hver];
          cbn [negb] in Hparse; [|congruence].
        destruct (is_hex s.[variant_position h]); cbn [negb] in Hparse; [|congruence].
        destruct (variant_bits_ok s.[variant_position h]);
          cbn [negb] in Hparse; [|congruence].
        destruct (all_hex h s); [|congruence].
        repeat split; assumption.
      * rewrite (parse_inner_bad_form s _ Hform) in Hparse. cbn [fst] in Hparse.
        congruence.
    + intros (h & Hform & Hver & Hbits & Hall).
      rewrite (parse_inner_outcome s _ h Hform) in Hparse.
      rewrite Hver, Ascii.eqb_refl, (variant_bits_ok_is_hex _ Hbits), Hbits, Hall
        in Hparse.
      exact Hparse.
  - intros Hform.
    rewrite (parse_inner_bad_form s _ Hform) in Hparse. exact Hparse.
  - intros h Hform.
    rewrite (parse_inner_outcome s _ h Hform) in Hparse.
    split; [|split; [|split]].
    + intros Hver. rewrite (ascii_eqb_false _ _ Hver) in Hparse. exact Hparse.
    + intros Hver Hhex Hbits.
      rewrite Hver, Ascii.eqb_refl, Hhex, Hbits in Hparse. exact Hparse.
    + intros Hver Hhex.
      rewrite Hver, Ascii.eqb_refl, Hhex in Hparse. exact Hparse.
    + intros Hver Hbits Hall.
      rewrite Hver, Ascii.eqb_refl, (variant_bits_ok_is_hex _ Hbits), Hbits, Hall
        in Hparse.
      exact Hparse.
  - vm_compute. reflexivity.
  - vm_compute. discriminate.
Qed.

Lemma parse_accepts_two_forms_witness :
  parse "01965347-e56d-7571-01bb-6120dba3a645"
  = inl (invalid_format_error "Invalid UUID Version 7 variant").
Proof.
  destruct (parse_accepts_two_forms "01965347-e56d-7571-01bb-6120dba3a645")
    as (_ & _ & Hform & _).
  destruct (Hform true eq_refl) as (_ & Hvariant & _).
  apply Hvariant; reflexivity.
Defined.

(** ** The clock reading against the stored timestamp *)

Lemma millis_bytes_of_eq millis :
  millis_bytes_of millis =
  [(millis / 2 ^ 40) mod 256; (millis / 2 ^ 32) mod 256; (millis / 2 ^ 24) mod 256;
   (millis / 2 ^ 16) mod 256; (millis / 2 ^ 8) mod 256; millis mod 256].
Proof.
  unfold millis_bytes_of.
  lazy beta iota zeta delta [millis_loop replicate insert list_insert].
  rewrite !Z.shiftr_shiftr by lia. cbn [Z.add Pos.add Pos.succ].
  rewrite !byte_of_shift, byte_of_low by lia.
  reflexivity.
Qed.

(** [memcmp] over the six timestamp bytes is the comparison of the 48-bit
    timestamp with the clock reading modulo [2^48]. *)
Lemma memcmp_timestamp (d : list Z) (millis : Z) :
  is_array16 d = true ->
  (memcmp d (millis_bytes_of millis) 6 <? 0) = (timestamp_of d <? millis mod 2 ^ 48).
Proof.
  intros Hd. unfold is_array16 in Hd. destruct_bytes 16 d Hd.
  rewrite millis_bytes_of_eq. rewrite <- (bytes_of_48 millis).
  assert (Hm : forall k, 0 <= (millis / 2 ^ k) mod 256 < 256)
    by (intros k; apply Z.mod_pos_bound; lia).
  pose proof (Hm 40) as H40. pose proof (Hm 32) as H32. pose proof (Hm 24) as H24.
  pose proof (Hm 16) as H16. pose proof (Hm 8) as H8.
  assert (H0 : 0 <= millis mod 256 < 256) by (apply Z.mod_pos_bound; lia).
  clear Hm.
  generalize dependent ((millis / 2 ^ 40) mod 256). intros m0 H40.
  generalize dependent ((millis / 2 ^ 32) mod 256). intros m1 H32.
  generalize dependent ((millis / 2 ^ 24) mod 256). intros m2 H24.
  generalize dependent ((millis / 2 ^ 16) mod 256). intros m3 H16.
  generalize dependent ((millis / 2 ^ 8) mod 256). intros m4 H8.
  generalize dependent (millis mod 256). intros m5 H0.
  unfold timestamp_of.
  lazy beta iota zeta delta [memcmp lookup_total list_lookup_total].
  repeat match goal with
         | |- context [if ?x <? ?y then _ else _] => destruct (Z.ltb_spec x y)
         end;
    symmetry; first [apply Z.ltb_lt; lia | apply Z.ltb_ge; lia].
Qed.

(** ** The counter increment *)

Lemma low6_increment b :
  0 <= b < 256 -> Z.land b 0x3F < 0x3F ->
  b + 1 < 256 /\ Z.land (b + 1) 0x3F = Z.land b 0x3F + 1 /\
  Z.land (Z.shiftr (b + 1) 6) 0x03 = Z.land (Z.shiftr b 6) 0x03.
Proof.
  intros Hb Hlow.
  pose (P := fun b =>
    negb (Z.land b 0x3F <? 0x3F)
    || ((b + 1 <? 256) && (Z.land (b + 1) 0x3F =? Z.land b 0x3F + 1)
        && (Z.land (Z.shiftr (b + 1) 6) 0x03 =? Z.land (Z.shiftr b 6) 0x03))).
  assert (HP : P b = true) by (apply forall_u8; [vm_compute; reflexivity | lia]).
  unfold P in HP. apply Z.ltb_lt in Hlow. rewrite Hlow in HP. cbn [negb orb] in HP.
  rewrite !andb_true_iff, !Z.eqb_eq, Z.ltb_lt in HP. tauto.
Qed.

Lemma low6_full b :
  0 <= b < 256 -> 0x3F <= Z.land b 0x3F -> Z.land b 0x3F = 0x3F.
Proof.
  intros Hb Hlow.
  pose (P := fun b => (Z.land b 0x3F <? 0x3F) || (Z.land b 0x3F =? 0x3F)).
  assert (HP : P b = true) by (apply forall_u8; [vm_compute; reflexivity | lia]).
  unfold P in HP. apply orb_prop in HP. destruct HP as [HP|HP].
  - apply Z.ltb_lt in HP. lia.
  - apply Z.eqb_eq in HP. exact HP.
Qed.

Lemma low4_increment b :
  0 <= b < 256 -> Z.land b 0x0F < 0x0F ->
  b + 1 < 256 /\ Z.land (b + 1) 0x0F = Z.land b 0x0F + 1 /\
  Z.land (Z.shiftr (b + 1) 4) 0x0F = Z.land (Z.shiftr b 4) 0x0F.
Proof.
  intros Hb Hlow.
  pose (P := fun b =>
    negb (Z.land b 0x0F <? 0x0F)
    || ((b + 1 <? 256) && (Z.land (b + 1) 0x0F =? Z.land b 0x0F + 1)
        && (Z.land (Z.shiftr (b + 1) 4) 0x0F =? Z.land (Z.shiftr b 4) 0x0F))).
  assert (HP : P b = true) by (apply forall_u8; [vm_compute; reflexivity | lia]).
  unfold P in HP. apply Z.ltb_lt in Hlow. rewrite Hlow in HP. cbn [negb orb] in HP.
  rewrite !andb_true_iff, !Z.eqb_eq, Z.ltb_lt in HP. tauto.
Qed.

Lemma low4_full b :
  0 <= b < 256 -> 0x0F <= Z.land b 0x0F -> Z.land b 0x0F = 0x0F.
Proof.
  intros Hb Hlow.
  pose (P := fun b => (Z.land b 0x0F <? 0x0F) || (Z.land b 0x0F =? 0x0F)).
  assert (HP : P b = true) by (apply forall_u8; [vm_compute; reflexivity | lia]).
  unfold P in HP. apply orb_prop in HP. destruct HP as [HP|HP].
  - apply Z.ltb_lt in HP. lia.
  - apply Z.eqb_eq in HP. exact HP.
Qed.

Lemma lex_same_head x a b :
  lexicographical_compare (x :: a) (x :: b) = lexicographical_compare a b.
Proof. cbn [lexicographical_compare]. rewrite Z.ltb_irrefl. reflexivity. Qed.

Lemma lex_lt_head x y a b :
  x < y -> lexicographical_compare (x :: a) (y :: b) = true.
Proof. intros H. cbn [lexicographical_compare]. apply Z.ltb_lt in H. rewrite H. reflexivity. Qed.

Lemma land_low_bounds b :
  0 <= b < 256 -> 0 <= Z.land b 0x0F <= 0x0F /\ 0 <= Z.land b 0x3F <= 0x3F.
Proof.
  intros Hb.
  change 0x0F with (Z.ones 4) at 1 2. change 0x3F with (Z.ones 6) at 1 2.
  rewrite !Z.land_ones by lia.
  pose proof (Z.mod_pos_bound b (2 ^ 4) ltac:(lia)).
  pose proof (Z.mod_pos_bound b (2 ^ 6) ltac:(lia)).
  lia.
Qed.

Ltac array_in_range :=
  unfold is_array16; apply andb_true_intro; split; [reflexivity|];
  cbn [forallb];
  repeat (rewrite (proj2 (is_u8_spec _)) by lia);
  reflexivity.

Ltac read_fields :=
  unfold counter_of, rand_a_of, rand_b_of, version_of, variant_of;
  lazy beta iota zeta delta [lookup_total list_lookup_total];
  change (Z.land 128 63) with 0.

Ltac finish_increment :=
  repeat match goal with
         | |- context [u8 (?x + 1)] => rewrite (u8_id (x + 1)) by lia
         end;
  split; [array_in_range|];
  split; [reflexivity|];
  split; [read_fields; lia|];
  split; [read_fields; lia|];
  split; [rewrite ?lex_same_head; apply lex_lt_head; lia|];
  split; [read_fields; first [reflexivity | assumption]|];
  read_fields; first [intros Hvariant; exact Hvariant | intros _; assumption
                     | intros _; reflexivity | intros; congruence].

(** The [else] branch of [generate] on sixteen bytes.  When it does not
    throw, the array is sixteen bytes again, its first six bytes and its
    version nibble are untouched, its variant bits stay [0b10] if they
    were, the 74-bit counter went up by one and the array went up in the
    order of [operator<].  It throws only when the counter is all ones,
    and then bytes 7 and 9 to 15 are left at zero and byte 8 at [0x80]. *)
Lemma increment_tail_spec (d : list Z) :
  is_array16 d = true ->
  match increment_tail d with
  | (inr _, d') =>
      is_array16 d' = true /\ firstn 6 d' = firstn 6 d /\
      counter_of d <> 2 ^ 74 - 1 /\
      counter_of d' = counter_of d + 1 /\
      lexicographical_compare d d' = true /\
      version_of d' = version_of d /\
      (variant_of d = VARIANT -> variant_of d' = VARIANT)
  | (inl e, d') =>
      counter_of d = 2 ^ 74 - 1 /\ is_sequence_overflow_error e = true /\
      d' = firstn 7 d ++ [0; 128; 0; 0; 0; 0; 0; 0; 0]
  end.
Proof.
  intros Hd. unfold is_array16 in Hd. destruct_bytes 16 d Hd.
  destruct (land_low_bounds b5 Hb5) as [Hlow4 _].
  destruct (land_low_bounds b7 Hb7) as [_ Hlow6].
  unfold increment_tail.
  lazy beta iota zeta delta
    [carry_loop Nat.ltb Nat.leb lookup_total list_lookup_total insert list_insert].
  destruct (Z.ltb_spec b14 255); [finish_increment|].
  destruct (Z.ltb_spec b13 255); [finish_increment|].
  destruct (Z.ltb_spec b12 255); [finish_increment|].
  destruct (Z.ltb_spec b11 255); [finish_increment|].
  destruct (Z.ltb_spec b10 255); [finish_increment|].
  destruct (Z.ltb_spec b9 255); [finish_increment|].
  destruct (Z.ltb_spec b8 255); [finish_increment|].
  lazy beta iota zeta delta
    [carry_head Nat.ltb Nat.leb lookup_total list_lookup_total insert list_insert].
  change (u8 (Z.lor 0 (Z.shiftl VARIANT 6))) with 128.
  destruct (Z.ltb_spec (Z.land b7 63) 63) as [Hlow|Hlow].
  { destruct (low6_increment b7 Hb7 Hlow) as (Hrange & Hnext & Hvar).
    finish_increment. }
  pose proof (low6_full b7 Hb7 Hlow) as Hfull6.
  destruct (Z.ltb_spec b6 255); [finish_increment|].
  destruct (Z.ltb_spec (Z.land b5 15) 15) as [Hlow'|Hlow'].
  { destruct (low4_increment b5 Hb5 Hlow') as (Hrange & Hnext & Hver).
    finish_increment. }
  pose proof (low4_full b5 Hb5 Hlow') as Hfull4.
  split; [read_fields; lia|].
  split; reflexivity.
Qed.

(** ** [generate] *)

(** The clock is not ahead of the stored timestamp: the [else] branch. *)
Lemma generate_not_advanced (millis : Z) (rng : csprng) (last : uuidv7) :
  is_array16 (data_ last) = true ->
  ~ (timestamp_of (data_ last) < millis mod 2 ^ 48) ->
  generate millis rng last =
  match increment_tail (data_ last) with
  | (inl e, d) => (inl e, from_array d, rng)
  | (inr _, d) => (inr (from_array d), from_array d, rng)
  end.
Proof.
  intros Hd Hts. unfold generate.
  rewrite (memcmp_timestamp _ millis Hd).
  destruct (Z.ltb_spec (timestamp_of (data_ last)) (millis mod 2 ^ 48)); [lia|].
  reflexivity.
Qed.

Lemma valid_parts (u : uuidv7) :
  valid u = true <->
  is_array16 (data_ u) = true /\ version_of (data_ u) = VERSION
  /\ variant_of (data_ u) = VARIANT.
Proof.
  unfold valid. rewrite !andb_true_iff, !Z.eqb_eq. tauto.
Qed.

(** C3. When the clock reading is not beyond the stored timestamp (the
    same millisecond, or a clock that went back) and the 74-bit counter is
    not all ones, [generate] returns and stores a value with the same six
    timestamp bytes, the counter one higher, version 7 and variant [0b10]
    as before, and does not call the CSPRNG.  Seeded with
    [04 18 46 e8 1c 98 70 00 80 00 00 00 00 00 00 00], under any clock
    reading up to that timestamp, the first call returns the seed with the
    last byte at [01]. *)
Theorem generate_same_millisecond_increments :
  (forall (millis : Z) (rng : csprng) (last : uuidv7),
     valid last = true ->
     ~ (timestamp_of (get_bytes last) < millis mod 2 ^ 48) ->
     counter_of (get_bytes last) <> 2 ^ 74 - 1 ->
     exists u,
       generate millis rng last = (inr u, u, rng) /\
       firstn 6 (get_bytes u) = firstn 6 (get_bytes last) /\
       counter_of (get_bytes u) = counter_of (get_bytes last) + 1 /\
       version_of (get_bytes u) = version_of (get_bytes last) /\
       variant_of (get_bytes u) = variant_of (get_bytes last) /\
       valid u = true) /\
  (forall (millis : Z) (rng : csprng),
     millis mod 2 ^ 48 <= 0x041846e81c98 ->
     generate millis rng seed_zero_tail =
     (inr (from_array [0x04; 0x18; 0x46; 0xe8; 0x1c; 0x98; 0x70; 0x00;
                       0x80; 0x00; 0x00; 0x00; 0x00; 0x00; 0x00; 0x01]),
      from_array [0x04; 0x18; 0x46; 0xe8; 0x1c; 0x98; 0x70; 0x00;
                  0x80; 0x00; 0x00; 0x00; 0x00; 0x00; 0x00; 0x01],
      rng)).
Proof.
  split.
  - intros millis rng last Hvalid Hts Hcount. unfold get_bytes in *.
    apply valid_parts in Hvalid. destruct Hvalid as (Hd & Hver & Hvar).
    rewrite (generate_not_advanced millis rng last Hd Hts).
    pose proof (increment_tail_spec (data_ last) Hd) as Hspec.
    destruct (increment_tail (data_ last)) as [[e|[]] d'].
    + destruct Hspec as [Hmax _]. contradiction.
    + destruct Hspec as (Hd' & Hts' & _ & Hnext & _ & Hver' & Hvar').
      exists (from_array d'). cbn [data_].
      repeat split; try assumption.
      * rewrite Hvar, (Hvar' Hvar). reflexivity.
      * apply valid_parts. cbn [data_]. repeat split; [assumption|congruence|auto].
  - intros millis rng Hts.
    rewrite generate_not_advanced.
    + reflexivity.
    + reflexivity.
    + change (timestamp_of (data_ seed_zero_tail)) with 0x041846e81c98. lia.
Qed.

Lemma generate_same_millisecond_increments_witness :
  exists u,
    generate 1793620800000 (mk_csprng (fun _ => inl (csprng_error "unused")) 0)
      seed_zero_tail
    = (inr u, u, mk_csprng (fun _ => inl (csprng_error "unused")) 0) /\
    counter_of (get_bytes u) = counter_of (get_bytes seed_zero_tail) + 1.
Proof.
  destruct generate_same_millisecond_increments as [Hgeneral _].
  destruct (Hgeneral 1793620800000
              (mk_csprng (fun _ => inl (csprng_error "unused")) 0) seed_zero_tail)
    as (u & Hgen & _ & Hnext & _).
  - reflexivity.
  - vm_compute. discriminate.
  - vm_compute. discriminate.
  - exists u. split; assumption.
Defined.

(** The clock is ahead of the stored timestamp and the CSPRNG fails: the
    exception leaves [generate] before anything is stored. *)
Lemma generate_csprng_failure (millis : Z) (rng : csprng) (last : uuidv7) (e : exn) :
  is_array16 (data_ last) = true ->
  timestamp_of (data_ last) < millis mod 2 ^ 48 ->
  outcome rng (calls rng) = inl e ->
  generate millis rng last = (inl e, last, mk_csprng (outcome rng) (S (calls rng))).
Proof.
  intros Hd Hts Hfail. unfold generate.
  rewrite (memcmp_timestamp _ millis Hd).
  apply Z.ltb_lt in Hts. rewrite Hts.
  unfold generate_random. rewrite Hfail. reflexivity.
Qed.

(** C1, evaluated at the seed with the maximum tail ([rand_a = 0x0FFF],
    [rand_b = 0x3FFFFFFFFFFFFFFF]).  Under any clock reading up to the
    seed's timestamp the first call throws [sequence_overflow_error], and
    the stored value is not what it was: bytes 7 and 9 to 15 are left at
    zero and byte 8 at [0x80], the carry having run through them before
    the throw.  The second call then does not throw: it returns the stored
    value with the last byte at [01], which is below the seed in the order
    of [operator<]. *)
Theorem generate_overflow_stores_wrapped_counter (millis : Z) (rng : csprng) :
  millis mod 2 ^ 48 <= 0x041846e81c98 ->
  let wrapped := from_array [0x04; 0x18; 0x46; 0xe8; 0x1c; 0x98; 0x7f; 0x00;
                             0x80; 0x00; 0x00; 0x00; 0x00; 0x00; 0x00; 0x00] in
  let next := from_array [0x04; 0x18; 0x46; 0xe8; 0x1c; 0x98; 0x7f; 0x00;
                          0x80; 0x00; 0x00; 0x00; 0x00; 0x00; 0x00; 0x01] in
  rand_a_of (get_bytes seed_max_tail) = 0x0FFF /\
  rand_b_of (get_bytes seed_max_tail) = 0x3FFFFFFFFFFFFFFF /\
  (exists e,
     generate millis rng seed_max_tail = (inl e, wrapped, rng) /\
     is_sequence_overflow_error e = true) /\
  wrapped <> seed_max_tail /\
  generate millis rng wrapped = (inr next, next, rng) /\
  ltb next seed_max_tail = true /\
  generate_seq [millis; millis] rng seed_max_tail
  = ([inl (sequence_overflow_error
             "Too many UUIDs generated in the same millisecond; sequence counter overflowed.");
      inr next], next, rng).
Proof.
  intros Hts wrapped next.
  assert (Hfirst : generate millis rng seed_max_tail
                   = (inl (sequence_overflow_error
                             "Too many UUIDs generated in the same millisecond; sequence counter overflowed."),
                      wrapped, rng)).
  { rewrite generate_not_advanced.
    - reflexivity.
    - reflexivity.
    - change (timestamp_of (data_ seed_max_tail)) with 0x041846e81c98. lia. }
  assert (Hsecond : generate millis rng wrapped = (inr next, next, rng)).
  { rewrite generate_not_advanced.
    - reflexivity.
    - reflexivity.
    - change (timestamp_of (data_ wrapped)) with 0x041846e81c98. lia. }
  split; [reflexivity|]. split; [reflexivity|].
  split; [eexists; split; [exact Hfirst | reflexivity]|].
  split; [discriminate|].
  split; [exact Hsecond|].
  split; [reflexivity|].
  cbn [generate_seq]. rewrite Hfirst, Hsecond. reflexivity.
Qed.

Lemma generate_overflow_stores_wrapped_counter_witness :
  generate 1793620800000 (mk_csprng (fun _ => inl (csprng_error "unused")) 0)
    (from_array [0x04; 0x18; 0x46; 0xe8; 0x1c; 0x98; 0x7f; 0x00;
                 0x80; 0x00; 0x00; 0x00; 0x00; 0x00; 0x00; 0x00])
  = (inr (from_array [0x04; 0x18; 0x46; 0xe8; 0x1c; 0x98; 0x7f; 0x00;
                      0x80; 0x00; 0x00; 0x00; 0x00; 0x00; 0x00; 0x01]),
     from_array [0x04; 0x18; 0x46; 0xe8; 0x1c; 0x98; 0x7f; 0x00;
                 0x80; 0x00; 0x00; 0x00; 0x00; 0x00; 0x00; 0x01],
     mk_csprng (fun _ => inl (csprng_error "unused")) 0).
Proof.
  apply (generate_overflow_stores_wrapped_counter 1793620800000
           (mk_csprng (fun _ => inl (csprng_error "unused")) 0)).
  vm_compute. discriminate.
Defined.

(** The clock is ahead of the stored timestamp and the CSPRNG delivers: the
    value built from the clock reading and the ten bytes. *)
Lemma generate_advanced (millis : Z) (rng : csprng) (last : uuidv7) (rand : list Z) :
  is_array16 (data_ last) = true ->
  is_array10 rand = true ->
  timestamp_of (data_ last) < millis mod 2 ^ 48 ->
  outcome rng (calls rng) = inr rand ->
  let d :=
    millis_bytes_of millis ++
    [u8 (Z.lor (Z.land (Z.shiftr (rand !!! 0%nat) 4) (Z.shiftr 0xFF 4)) (Z.shiftl VERSION 4));
     rand !!! 1%nat;
     u8 (Z.lor (Z.land (Z.shiftr (rand !!! 2%nat) 2) (Z.shiftr 0xFF 2)) (Z.shiftl VARIANT 6));
     rand !!! 3%nat; rand !!! 4%nat; rand !!! 5%nat; rand !!! 6%nat;
     rand !!! 7%nat; rand !!! 8%nat; rand !!! 9%nat] in
  generate millis rng last
  = (inr (from_array d), from_array d, mk_csprng (outcome rng) (S (calls rng))).
Proof.
  intros Hd Hrand Hts Hout. unfold generate.
  rewrite (memcmp_timestamp _ millis Hd).
  apply Z.ltb_lt in Hts. rewrite Hts.
  unfold generate_random. rewrite Hout.
  destruct last as [d0]. cbn [data_] in *.
  unfold is_array16 in Hd. destruct_bytes 16 d0 Hd.
  unfold is_array10 in Hrand. destruct_bytes 10 rand Hrand.
  rewrite millis_bytes_of_eq.
  lazy beta iota zeta delta
    [memcpy insert list_insert lookup_total list_lookup_total app].
  reflexivity.
Qed.

Lemma memcmp_lex (n : nat) :
  forall a b tail,
    length b = n -> memcmp a b n < 0 ->
    lexicographical_compare a (b ++ tail) = true.
Proof.
  induction n as [|n IH]; intros a b tail Hlen Hcmp.
  - cbn [memcmp] in Hcmp. lia.
  - destruct b as [|y b]; [discriminate Hlen|].
    destruct a as [|x a]; cbn [memcmp] in Hcmp; [lia|].
    cbn [app lexicographical_compare].
    destruct (x <? y); [reflexivity|].
    destruct (y <? x); [lia|].
    apply IH; [|exact Hcmp].
    cbn [length] in Hlen. lia.
Qed.

Lemma millis_bytes_of_length millis : length (millis_bytes_of millis) = 6%nat.
Proof. rewrite millis_bytes_of_eq. reflexivity. Qed.

Lemma be_value_7 (r3 r4 r5 r6 r7 r8 r9 : Z) :
  be_value [r3; r4; r5; r6; r7; r8; r9]
  = r3 * 2 ^ 48 + r4 * 2 ^ 40 + r5 * 2 ^ 32 + r6 * 2 ^ 24 + r7 * 2 ^ 16 + r8 * 2 ^ 8 + r9.
Proof. unfold be_value. cbn [fold_left]. lia. Qed.

(** The value built in a new millisecond is sixteen bytes with the two
    fixed fields, and starts with the bytes of the clock reading. *)
Lemma generate_advanced_valid
    (millis : Z) (rng : csprng) (last : uuidv7) (rand : list Z) :
  is_array16 (data_ last) = true ->
  is_array10 rand = true ->
  timestamp_of (data_ last) < millis mod 2 ^ 48 ->
  outcome rng (calls rng) = inr rand ->
  exists u,
    generate millis rng last = (inr u, u, mk_csprng (outcome rng) (S (calls rng))) /\
    valid u = true /\ firstn 6 (data_ u) = millis_bytes_of millis.
Proof.
  intros Hd Hrand Hts Hout.
  rewrite (generate_advanced millis rng last rand Hd Hrand Hts Hout).
  eexists. split; [reflexivity|]. cbn [data_].
  unfold is_array10 in Hrand. destruct_bytes 10 rand Hrand.
  lazy beta iota zeta delta [lookup_total list_lookup_total].
  assert (Hqa : 0 <= Z.shiftr b 4 < 16).
  { rewrite Z.shiftr_div_pow2 by lia. Z.div_mod_to_equations; lia. }
  assert (Hqb : 0 <= Z.shiftr b1 2 < 64).
  { rewrite Z.shiftr_div_pow2 by lia. Z.div_mod_to_equations; lia. }
  destruct (version_byte _ Hqa) as (Hv1 & _ & Hv3).
  destruct (variant_byte _ Hqb) as (Hw1 & _ & Hw3).
  split.
  - apply valid_parts. cbn [data_]. rewrite millis_bytes_of_eq.
    split; [|split; [exact Hv3 | exact Hw3]].
    assert (Hm : forall k, 0 <= (millis / 2 ^ k) mod 256 < 256)
      by (intros k; apply Z.mod_pos_bound; lia).
    pose proof (Hm 40). pose proof (Hm 32). pose proof (Hm 24).
    pose proof (Hm 16). pose proof (Hm 8).
    assert (0 <= millis mod 256 < 256) by (apply Z.mod_pos_bound; lia).
    cbn [app]. array_in_range.
  - rewrite millis_bytes_of_eq. reflexivity.
Qed.

(** C4, as the code has it.  When the stored timestamp is below the clock
    reading, [generate] calls the CSPRNG once, for ten bytes, and returns
    and stores a value with the clock reading (modulo [2^48]) in the six
    timestamp bytes, version 7 and variant [0b10].  [rand_a] is the high
    nibble of random byte 0 followed by random byte 1 (the low nibble of
    byte 0 is dropped); [rand_b] is the top six bits of random byte 2
    followed by random bytes 3 to 9 (the low two bits of byte 2 are
    dropped). *)
Theorem generate_new_millisecond_draws_tail
    (millis : Z) (rng : csprng) (last : uuidv7) (rand : list Z) :
  is_array16 (get_bytes last) = true ->
  is_array10 rand = true ->
  timestamp_of (get_bytes last) < millis mod 2 ^ 48 ->
  outcome rng (calls rng) = inr rand ->
  exists u,
    generate millis rng last = (inr u, u, mk_csprng (outcome rng) (S (calls rng))) /\
    valid u = true /\
    version_of (get_bytes u) = 7 /\ variant_of (get_bytes u) = 2 /\
    firstn 6 (get_bytes u) = millis_bytes_of millis /\
    timestamp_of (get_bytes u) = millis mod 2 ^ 48 /\
    rand_a_of (get_bytes u) = Z.shiftr (rand !!! 0%nat) 4 * 2 ^ 8 + rand !!! 1%nat /\
    rand_b_of (get_bytes u)
    = Z.shiftr (rand !!! 2%nat) 2 * 2 ^ 56 + be_value (drop 3 rand).
Proof.
  unfold get_bytes. intros Hd Hrand Hts Hout.
  rewrite (generate_advanced millis rng last rand Hd Hrand Hts Hout).
  eexists. split; [reflexivity|]. cbn [data_].
  unfold is_array10 in Hrand. destruct_bytes 10 rand Hrand.
  lazy beta iota zeta delta [lookup_total list_lookup_total drop].
  rewrite be_value_7, millis_bytes_of_eq.
  assert (Hqa : 0 <= Z.shiftr b 4 < 16).
  { rewrite Z.shiftr_div_pow2 by lia. Z.div_mod_to_equations; lia. }
  assert (Hqb : 0 <= Z.shiftr b1 2 < 64).
  { rewrite Z.shiftr_div_pow2 by lia. Z.div_mod_to_equations; lia. }
  pose proof (version_byte _ Hqa) as Hv. pose proof (variant_byte _ Hqb) as Hw.
  cbv zeta in Hv, Hw. destruct Hv as (Hv1 & Hv2 & Hv3). destruct Hw as (Hw1 & Hw2 & Hw3).
  assert (Hm : forall k, 0 <= (millis / 2 ^ k) mod 256 < 256)
    by (intros k; apply Z.mod_pos_bound; lia).
  pose proof (Hm 40). pose proof (Hm 32). pose proof (Hm 24).
  pose proof (Hm 16). pose proof (Hm 8).
  assert (0 <= millis mod 256 < 256) by (apply Z.mod_pos_bound; lia).
  assert (Hfields :
    version_of ([(millis / 2 ^ 40) mod 256; (millis / 2 ^ 32) mod 256;
                 (millis / 2 ^ 24) mod 256; (millis / 2 ^ 16) mod 256;
                 (millis / 2 ^ 8) mod 256; millis mod 256] ++
                [u8 (Z.lor (Z.land (Z.shiftr b 4) (Z.shiftr 255 4)) (Z.shiftl VERSION 4)); b0;
                 u8 (Z.lor (Z.land (Z.shiftr b1 2) (Z.shiftr 255 2)) (Z.shiftl VARIANT 6));
                 b2; b3; b4; b5; b6; b7; b8]) = 7 /\
    variant_of ([(millis / 2 ^ 40) mod 256; (millis / 2 ^ 32) mod 256;
                 (millis / 2 ^ 24) mod 256; (millis / 2 ^ 16) mod 256;
                 (millis / 2 ^ 8) mod 256; millis mod 256] ++
                [u8 (Z.lor (Z.land (Z.shiftr b 4) (Z.shiftr 255 4)) (Z.shiftl VERSION 4)); b0;
                 u8 (Z.lor (Z.land (Z.shiftr b1 2) (Z.shiftr 255 2)) (Z.shiftl VARIANT 6));
                 b2; b3; b4; b5; b6; b7; b8]) = 2).
  { split; [exact Hv3 | exact Hw3]. }
  destruct Hfields as [Hver Hvar].
  split; [|split; [exact Hver|split; [exact Hvar|]]].
  - apply valid_parts. cbn [data_]. split; [|split; assumption].
    cbn [app]. array_in_range.
  - split; [reflexivity|].
    unfold timestamp_of, rand_a_of, rand_b_of.
    lazy beta iota zeta delta [lookup_total list_lookup_total app].
    rewrite Hv2, Hw2.
    split; [apply bytes_of_48|]. split; [reflexivity|lia].
Qed.

Lemma generate_new_millisecond_draws_tail_witness :
  exists u,
    generate 1793620800000
      (mk_csprng (fun _ => inr [0x0F; 0x00; 0xFF; 1; 2; 3; 4; 5; 6; 7]) 0)
      (from_array [0; 0; 0; 0; 0; 0; 112; 0; 128; 0; 0; 0; 0; 0; 0; 0])
    = (inr u, u, mk_csprng (fun _ => inr [0x0F; 0x00; 0xFF; 1; 2; 3; 4; 5; 6; 7]) 1) /\
    valid u = true.
Proof.
  destruct (generate_new_millisecond_draws_tail 1793620800000
              (mk_csprng (fun _ => inr [0x0F; 0x00; 0xFF; 1; 2; 3; 4; 5; 6; 7]) 0)
              (from_array [0; 0; 0; 0; 0; 0; 112; 0; 128; 0; 0; 0; 0; 0; 0; 0])
              [0x0F; 0x00; 0xFF; 1; 2; 3; 4; 5; 6; 7])
    as (u & Hgen & Hvalid & _).
  - reflexivity.
  - reflexivity.
  - reflexivity.
  - reflexivity.
  - exists u. split; assumption.
Defined.

(** With the ten random bytes [0f 00 ff 01 02 03 04 05 06 07], whose top
    twelve bits are [0x0f0], the value [generate] builds has [rand_a = 0];
    and the 68 bits after the top twelve do not fit the 62 of [rand_b]. *)
Lemma generate_rand_a_is_not_top_12_bits :
  let rand := [0x0F; 0x00; 0xFF; 1; 2; 3; 4; 5; 6; 7] in
  let rng := mk_csprng (fun _ => inr rand) 0 in
  let last := from_array [0; 0; 0; 0; 0; 0; 112; 0; 128; 0; 0; 0; 0; 0; 0; 0] in
  let u := from_array [1; 161; 156; 33; 114; 0; 112; 0;
                       191; 1; 2; 3; 4; 5; 6; 7] in
  timestamp_of (get_bytes last) < 1793620800000 mod 2 ^ 48 /\
  generate 1793620800000 rng last = (inr u, u, mk_csprng (fun _ => inr rand) 1) /\
  be_value rand / 2 ^ 68 = 0x0F0 /\
  rand_a_of (get_bytes u) = 0 /\
  rand_a_of (get_bytes u) <> be_value rand / 2 ^ 68 /\
  rand_b_of (get_bytes u) <> be_value rand mod 2 ^ 68.
Proof.
  cbv zeta. repeat split; try (vm_compute; reflexivity); vm_compute; discriminate.
Qed.

(** ** Monotonicity *)

Lemma lex_trans (a : list Z) :
  forall b c,
    lexicographical_compare a b = true -> lexicographical_compare b c = true ->
    lexicographical_compare a c = true.
Proof.
  induction a as [|x a IH]; intros [|y b] [|z c] Hab Hbc;
    cbn [lexicographical_compare] in *; try discriminate; try reflexivity.
  destruct (Z.ltb_spec x y), (Z.ltb_spec y x), (Z.ltb_spec y z), (Z.ltb_spec z y),
    (Z.ltb_spec x z), (Z.ltb_spec z x);
    try reflexivity; try discriminate; try lia.
  apply (IH b c); assumption.
Qed.

Lemma uuid_lt_trans : Relation_Definitions.transitive uuidv7 uuid_lt.
Proof. intros a b c. unfold uuid_lt, ltb. apply lex_trans. Qed.

(** A call that returns stores what it returns, and what it returns is
    above what was stored before. *)
Lemma generate_success (millis : Z) (rng rng' : csprng) (last last' u : uuidv7) :
  is_array16 (data_ last) = true -> csprng_ok rng ->
  generate millis rng last = (inr u, last', rng') ->
  last' = u /\ uuid_lt last u /\ is_array16 (data_ u) = true /\ csprng_ok rng'.
Proof.
  intros Hd Hrng Hgen.
  destruct (Z_lt_dec (timestamp_of (data_ last)) (millis mod 2 ^ 48)) as [Hts|Hts].
  - destruct (outcome rng (calls rng)) as [e|rand] eqn:Hout.
    + rewrite (generate_csprng_failure millis rng last e Hd Hts Hout) in Hgen.
      discriminate Hgen.
    + pose proof (Hrng _ _ Hout) as Hrand.
      destruct (generate_advanced_valid millis rng last rand Hd Hrand Hts Hout)
        as (v & Hv & Hvalid & Hprefix).
      rewrite Hv in Hgen. injection Hgen as Hu Hlast Hnext.
      subst v last' rng'.
      apply valid_parts in Hvalid. destruct Hvalid as (Hd' & _).
      repeat split; try assumption.
      unfold uuid_lt, ltb.
      rewrite <- (firstn_skipn 6 (data_ u)), Hprefix.
      apply (memcmp_lex 6); [apply millis_bytes_of_length|].
      apply Z.ltb_lt. rewrite (memcmp_timestamp _ millis Hd). apply Z.ltb_lt. exact Hts.
  - rewrite (generate_not_advanced millis rng last Hd Hts) in Hgen.
    pose proof (increment_tail_spec (data_ last) Hd) as Hspec.
    destruct (increment_tail (data_ last)) as [[e|[]] d']; [discriminate Hgen|].
    injection Hgen as Hu Hlast Hnext. subst u last' rng'. cbn [data_].
    destruct Hspec as (Hd' & _ & _ & _ & Hlt & _).
    repeat split; assumption.
Qed.

(** Whatever a call does, the stored value stays sixteen bytes with
    version 7 and variant [0b10]. *)
Lemma generate_preserves_valid
    (millis : Z) (rng rng' : csprng) (last last' : uuidv7) (r : result uuidv7) :
  valid last = true -> csprng_ok rng ->
  generate millis rng last = (r, last', rng') ->
  valid last' = true.
Proof.
  intros Hvalid Hrng Hgen.
  pose proof Hvalid as Hparts. apply valid_parts in Hparts.
  destruct Hparts as (Hd & Hver & Hvar).
  destruct (Z_lt_dec (timestamp_of (data_ last)) (millis mod 2 ^ 48)) as [Hts|Hts].
  - destruct (outcome rng (calls rng)) as [e|rand] eqn:Hout.
    + rewrite (generate_csprng_failure millis rng last e Hd Hts Hout) in Hgen.
      injection Hgen as _ <- _. exact Hvalid.
    + pose proof (Hrng _ _ Hout) as Hrand.
      destruct (generate_advanced_valid millis rng last rand Hd Hrand Hts Hout)
        as (v & Hv & Hvalid' & _).
      rewrite Hv in Hgen. injection Hgen as _ <- _. exact Hvalid'.
  - rewrite (generate_not_advanced millis rng last Hd Hts) in Hgen.
    pose proof (increment_tail_spec (data_ last) Hd) as Hspec.
    destruct (increment_tail (data_ last)) as [[e|[]] d'].
    + injection Hgen as _ <- _. destruct Hspec as (_ & _ & ->).
      apply valid_parts. cbn [data_].
      destruct last as [d]. cbn [data_] in *.
      unfold is_array16 in Hd. destruct_bytes 16 d Hd.
      split; [cbn [firstn app]; array_in_range|].
      split; [exact Hver | reflexivity].
    + injection Hgen as _ <- _. destruct Hspec as (Hd' & _ & _ & _ & _ & Hver' & Hvar').
      apply valid_parts. cbn [data_].
      split; [exact Hd'|]. split; [congruence | auto].
Qed.

Lemma generate_seq_sorted (clock : list Z) :
  forall (rng : csprng) (last : uuidv7) (outs : list uuidv7),
    is_array16 (data_ last) = true -> csprng_ok rng ->
    fst (fst (generate_seq clock rng last)) = map inr outs ->
    Sorted uuid_lt (last :: outs) /\ length outs = length clock.
Proof.
  induction clock as [|millis clock IH]; intros rng last outs Hd Hrng Hseq.
  - cbn [generate_seq fst] in Hseq. destruct outs; [|discriminate Hseq].
    split; [repeat constructor | reflexivity].
  - cbn [generate_seq] in Hseq.
    destruct (generate millis rng last) as [[r last1] rng1] eqn:Hgen.
    destruct (generate_seq clock rng1 last1) as [[rs last2] rng2] eqn:Hrest.
    cbn [fst] in Hseq.
    destruct outs as [|u outs]; [discriminate Hseq|].
    cbn [map] in Hseq. inversion Hseq; subst. clear Hseq.
    destruct (generate_success _ _ _ _ _ _ Hd Hrng Hgen) as (-> & Hlt & Hd' & Hrng').
    destruct (IH rng1 u outs Hd' Hrng') as [Hsorted Hlen].
    { rewrite Hrest. reflexivity. }
    split; [|cbn [length]; rewrite Hlen; reflexivity].
    constructor; [exact Hsorted|]. constructor. exact Hlt.
Qed.

(** C2. Any number of calls of [generate] in immediate succession on one
    generator, under any clock readings (advancing, standing still or
    going back), all of which return: the values returned are strictly
    increasing in the order of [operator<], the byte-wise order of the
    sixteen bytes.  Each is above the one returned by the call before it,
    hence above every value returned earlier. *)
Theorem generate_sequence_strictly_increasing
    (clock : list Z) (rng : csprng) (last : uuidv7) (outs : list uuidv7) :
  is_array16 (get_bytes last) = true -> csprng_ok rng ->
  fst (fst (generate_seq clock rng last)) = map inr outs ->
  length outs = length clock /\
  Sorted uuid_lt outs /\ StronglySorted uuid_lt outs.
Proof.
  intros Hd Hrng Hseq.
  destruct (generate_seq_sorted clock rng last outs Hd Hrng Hseq) as [Hsorted Hlen].
  inversion Hsorted; subst.
  split; [exact Hlen|]. split; [assumption|].
  apply Sorted_StronglySorted; [exact uuid_lt_trans | assumption].
Qed.

Lemma generate_sequence_strictly_increasing_witness :
  StronglySorted uuid_lt
    [from_array [1; 161; 156; 33; 114; 0; 122; 255; 191; 255; 255; 255; 255; 255; 255; 255];
     from_array [1; 161; 156; 33; 114; 0; 123; 0; 128; 0; 0; 0; 0; 0; 0; 0];
     from_array [1; 161; 156; 33; 114; 0; 123; 0; 128; 0; 0; 0; 0; 0; 0; 1];
     from_array [1; 161; 156; 33; 114; 1; 122; 255; 191; 255; 255; 255; 255; 255; 255; 255]].
Proof.
  apply (generate_sequence_strictly_increasing
           [1793620800000; 1793620800000; 1793620799000; 1793620800001]
           (mk_csprng (fun _ => inr [0xAB; 0xFF; 0xFF; 0xFF; 0xFF; 0xFF; 0xFF; 0xFF; 0xFF; 0xFF]) 0)
           (from_array [0; 0; 0; 0; 0; 0; 112; 0; 128; 0; 0; 0; 0; 0; 0; 0])).
  - reflexivity.
  - intros n bytes Hout. cbn [outcome] in Hout. injection Hout as <-. reflexivity.
  - vm_compute. reflexivity.
Defined.

(** * Further properties of the code *)

(** ** Fields and bytes *)

Lemma byte_of_nibbles b :
  0 <= b < 256 -> b = Z.land (Z.shiftr b 4) 0x0F * 16 + Z.land b 0x0F.
Proof.
  intros Hb.
  pose (P := fun b => b =? Z.land (Z.shiftr b 4) 0x0F * 16 + Z.land b 0x0F).
  assert (HP : P b = true) by (apply forall_u8; [vm_compute; reflexivity | lia]).
  apply Z.eqb_eq in HP. exact HP.
Qed.

Lemma byte_of_variant_bits b :
  0 <= b < 256 -> b = Z.land (Z.shiftr b 6) 0x03 * 64 + Z.land b 0x3F.
Proof.
  intros Hb.
  pose (P := fun b => b =? Z.land (Z.shiftr b 6) 0x03 * 64 + Z.land b 0x3F).
  assert (HP : P b = true) by (apply forall_u8; [vm_compute; reflexivity | lia]).
  apply Z.eqb_eq in HP. exact HP.
Qed.

Lemma version_byte_value q :
  0 <= q < 16 ->
  u8 (Z.lor (Z.land q (Z.shiftr 0xFF 4)) (Z.shiftl VERSION 4)) = 112 + q.
Proof.
  intros Hq.
  pose (P := fun q =>
    (16 <=? q) || (u8 (Z.lor (Z.land q (Z.shiftr 0xFF 4)) (Z.shiftl VERSION 4)) =? 112 + q)).
  assert (HP : P q = true) by (apply forall_u8; [vm_compute; reflexivity | lia]).
  unfold P in HP. apply orb_prop in HP. destruct HP as [HP|HP].
  - apply Z.leb_le in HP. lia.
  - apply Z.eqb_eq in HP. exact HP.
Qed.

Lemma variant_byte_value q :
  0 <= q < 64 ->
  u8 (Z.lor (Z.land q (Z.shiftr 0xFF 2)) (Z.shiftl VARIANT 6)) = 128 + q.
Proof.
  intros Hq.
  pose (P := fun q =>
    (64 <=? q) || (u8 (Z.lor (Z.land q (Z.shiftr 0xFF 2)) (Z.shiftl VARIANT 6)) =? 128 + q)).
  assert (HP : P q = true) by (apply forall_u8; [vm_compute; reflexivity | lia]).
  unfold P in HP. apply orb_prop in HP. destruct HP as [HP|HP].
  - apply Z.leb_le in HP. lia.
  - apply Z.eqb_eq in HP. exact HP.
Qed.

(** The bytes of a valid value, with the two fixed fields written out. *)
Lemma valid_bytes (d : list Z) :
  is_array16 d = true -> version_of d = VERSION -> variant_of d = VARIANT ->
  d !!! 6%nat = 112 + Z.land (d !!! 6%nat) 0x0F /\
  d !!! 8%nat = 128 + Z.land (d !!! 8%nat) 0x3F.
Proof.
  intros Hd Hver Hvar. unfold is_array16 in Hd. destruct_bytes 16 d Hd.
  unfold version_of in Hver. unfold variant_of in Hvar.
  lazy beta iota zeta delta [lookup_total list_lookup_total] in *.
  pose proof (byte_of_nibbles b5 Hb5) as H6.
  pose proof (byte_of_variant_bits b7 Hb7) as H8.
  rewrite Hver in H6. rewrite Hvar in H8. unfold VERSION, VARIANT in *. lia.
Qed.

Lemma split_be48 (a0 a1 a2 a3 a4 a5 : Z) :
  0 <= a0 < 256 -> 0 <= a1 < 256 -> 0 <= a2 < 256 ->
  0 <= a3 < 256 -> 0 <= a4 < 256 -> 0 <= a5 < 256 ->
  let x := a0 * 2 ^ 40 + a1 * 2 ^ 32 + a2 * 2 ^ 24 + a3 * 2 ^ 16 + a4 * 2 ^ 8 + a5 in
  (x / 2 ^ 40) mod 256 = a0 /\ (x / 2 ^ 32) mod 256 = a1 /\
  (x / 2 ^ 24) mod 256 = a2 /\ (x / 2 ^ 16) mod 256 = a3 /\
  (x / 2 ^ 8) mod 256 = a4 /\ x mod 256 = a5.
Proof.
  intros H0 H1 H2 H3 H4 H5 x. subst x.
  repeat split; Z.div_mod_to_equations; lia.
Qed.

Lemma split_be62 (a0 a1 a2 a3 a4 a5 a6 a7 : Z) :
  0 <= a0 < 64 -> 0 <= a1 < 256 -> 0 <= a2 < 256 -> 0 <= a3 < 256 ->
  0 <= a4 < 256 -> 0 <= a5 < 256 -> 0 <= a6 < 256 -> 0 <= a7 < 256 ->
  let x := a0 * 2 ^ 56 + a1 * 2 ^ 48 + a2 * 2 ^ 40 + a3 * 2 ^ 32
           + a4 * 2 ^ 24 + a5 * 2 ^ 16 + a6 * 2 ^ 8 + a7 in
  x <= MAX_RAND_B /\ x / 2 ^ 56 = a0 /\
  (x / 2 ^ 48) mod 256 = a1 /\ (x / 2 ^ 40) mod 256 = a2 /\
  (x / 2 ^ 32) mod 256 = a3 /\ (x / 2 ^ 24) mod 256 = a4 /\
  (x / 2 ^ 16) mod 256 = a5 /\ (x / 2 ^ 8) mod 256 = a6 /\ x mod 256 = a7.
Proof.
  intros H0 H1 H2 H3 H4 H5 H6 H7 x. subst x. unfold MAX_RAND_B.
  repeat split; Z.div_mod_to_equations; lia.
Qed.

Lemma split_be12 (a0 a1 : Z) :
  0 <= a0 < 16 -> 0 <= a1 < 256 ->
  let x := a0 * 2 ^ 8 + a1 in
  x <= MAX_RAND_A /\ x / 2 ^ 8 = a0 /\ x mod 256 = a1.
Proof.
  intros H0 H1 x. subst x. unfold MAX_RAND_A.
  repeat split; Z.div_mod_to_equations; lia.
Qed.

(** X2. The constructor from fields undoes the reading of the fields:
    constructing from the timestamp, [rand_a] and [rand_b] of a valid value
    passes both assertions and gives that value back. *)
Theorem ctor_of_fields (u : uuidv7) :
  valid u = true ->
  ctor (timestamp_of (get_bytes u)) (rand_a_of (get_bytes u)) (rand_b_of (get_bytes u))
  = inr u.
Proof.
  intros Hv. apply valid_parts in Hv. destruct Hv as (Hd & Hver & Hvar).
  destruct u as [d]. unfold get_bytes. cbn [data_] in *.
  destruct (valid_bytes d Hd Hver Hvar) as [H6 H8].
  unfold is_array16 in Hd. destruct_bytes 16 d Hd.
  destruct (land_low_bounds b5 Hb5) as [Hlow4 _].
  destruct (land_low_bounds b7 Hb7) as [_ Hlow6].
  unfold rand_a_of, rand_b_of, timestamp_of in *.
  lazy beta iota zeta delta [lookup_total list_lookup_total] in *.
  generalize dependent (Z.land b5 15). intros x6 H6 Hx6.
  generalize dependent (Z.land b7 63). intros x8 H8 Hx8.
  destruct (split_be48 b b0 b1 b2 b3 b4) as (T0 & T1 & T2 & T3 & T4 & T5); try assumption.
  destruct (split_be12 x6 b6) as (A & A0 & A1); [lia|assumption|].
  destruct (split_be62 x8 b8 b9 b10 b11 b12 b13 b14)
    as (B & B0 & B1 & B2 & B3 & B4 & B5 & B6 & B7); try assumption; [lia|].
  cbv zeta in *.
  unfold ctor.
  apply Z.leb_le in A, B. rewrite A, B. cbn [negb]. do 2 f_equal.
  unfold encode.
  lazy beta iota zeta delta [replicate insert list_insert].
  rewrite !byte_of_shift, !byte_of_low by lia.
  rewrite !Z.shiftr_div_pow2 by lia.
  rewrite T0, T1, T2, T3, T4, T5, A0, A1, B0, B1, B2, B3, B4, B5, B6, B7.
  rewrite version_byte_value, variant_byte_value by lia.
  rewrite H6, H8. reflexivity.
Qed.

Lemma ctor_of_fields_witness :
  ctor (timestamp_of (get_bytes scenario_b)) (rand_a_of (get_bytes scenario_b))
       (rand_b_of (get_bytes scenario_b)) = inr scenario_b.
Proof. apply (ctor_of_fields scenario_b). reflexivity. Defined.

(** X1. Export and import of the sixteen bytes are inverse to each other.
    [from_bytes], in the array form and in the pointer form, takes the
    bytes of a valid value back to that value; and what [from_bytes]
    returns on sixteen bytes is valid and has those bytes. *)
Theorem from_bytes_get_bytes_roundtrip :
  (forall u, valid u = true ->
     from_bytes (get_bytes u) = inr u /\
     from_bytes_ptr (Some (get_bytes u)) = inr u) /\
  (forall b u, is_array16 b = true -> from_bytes b = inr u ->
     valid u = true /\ get_bytes u = b).
Proof.
  split.
  - intros u Hv.
    assert (Hfrom : from_bytes (get_bytes u) = inr u).
    { apply valid_parts in Hv. destruct Hv as (_ & Hver & Hvar).
      destruct u as [d]. unfold from_bytes, get_bytes. cbn [data_] in *.
      unfold version_of in Hver. unfold variant_of in Hvar.
      change 15 with 0x0F. change 3 with 0x03.
      rewrite Hver, Hvar, !Z.eqb_refl. reflexivity. }
    split; [exact Hfrom|].
    unfold from_bytes_ptr. rewrite <- Hfrom. f_equal.
    apply valid_parts in Hv. destruct Hv as (Hd & _).
    unfold get_bytes. destruct u as [d]. cbn [data_] in *.
    unfold is_array16 in Hd. destruct_bytes 16 d Hd. reflexivity.
  - intros b u Hb Hfrom. unfold from_bytes in Hfrom.
    change 15 with 0x0F in Hfrom. change 3 with 0x03 in Hfrom.
    fold (version_of b) in Hfrom. fold (variant_of b) in Hfrom.
    destruct (Z.eqb_spec (version_of b) VERSION) as [Hver|Hver];
      cbn [negb] in Hfrom; [|discriminate Hfrom].
    destruct (Z.eqb_spec (variant_of b) VARIANT) as [Hvar|Hvar];
      cbn [negb] in Hfrom; [|discriminate Hfrom].
    injection Hfrom as <-. split; [|reflexivity].
    apply valid_parts. cbn [data_]. repeat split; assumption.
Qed.

Lemma from_bytes_get_bytes_roundtrip_witness :
  from_bytes (get_bytes scenario_b) = inr scenario_b /\
  from_bytes_ptr (Some (get_bytes scenario_b)) = inr scenario_b.
Proof.
  destruct from_bytes_get_bytes_roundtrip as [Hexport _].
  apply (Hexport scenario_b). reflexivity.
Defined.

(** ** The relational operators *)

Lemma lex_irrefl (a : list Z) : lexicographical_compare a a = false.
Proof.
  induction a as [|x a IH]; cbn [lexicographical_compare]; [reflexivity|].
  rewrite Z.ltb_irrefl. exact IH.
Qed.

Lemma lex_connected (a : list Z) :
  forall b, length a = length b ->
    lexicographical_compare a b = false -> lexicographical_compare b a = false ->
    a = b.
Proof.
  induction a as [|x a IH]; intros [|y b] Hlen Hab Hba; try discriminate Hlen.
  - reflexivity.
  - cbn [lexicographical_compare] in Hab, Hba.
    destruct (Z.ltb_spec x y); [discriminate Hab|].
    destruct (Z.ltb_spec y x); [discriminate Hba|].
    assert (x = y) by lia. subst y. f_equal.
    apply IH; [cbn [length] in Hlen; lia | assumption | assumption].
Qed.

Lemma lex_asym (a : list Z) :
  forall b, lexicographical_compare a b = true -> lexicographical_compare b a = false.
Proof.
  induction a as [|x a IH]; intros [|y b] Hab; cbn [lexicographical_compare] in *;
    try discriminate Hab; try reflexivity.
  destruct (Z.ltb_spec x y), (Z.ltb_spec y x); try reflexivity; try lia;
    try discriminate Hab.
  apply IH. exact Hab.
Qed.

Ltac compare_heads :=
  repeat match goal with
         | |- (if ?x <? ?y then _ else _) = _ =>
             destruct (Z.ltb_spec x y); [symmetry; apply Z.ltb_lt; lia|];
             destruct (Z.ltb_spec y x); [symmetry; apply Z.ltb_ge; lia|]
         end.

Lemma lex_is_numeric (a b : list Z) :
  is_array16 a = true -> is_array16 b = true ->
  lexicographical_compare a b = (be_value a <? be_value b).
Proof.
  intros Ha Hb. unfold is_array16 in Ha, Hb.
  destruct_bytes 16 a Ha. destruct_bytes 16 b Hb.
  unfold be_value. cbn [fold_left lexicographical_compare].
  compare_heads.
  symmetry. apply Z.ltb_ge. lia.
Qed.

Lemma eqb_true_iff (a b : uuidv7) : eqb a b = true <-> a = b.
Proof.
  unfold eqb. rewrite bool_decide_eq_true. destruct a, b. cbn [data_].
  split; [intros ->; reflexivity | intros H; injection H as ->; reflexivity].
Qed.

(** X3. [operator<] is a strict total order on the values: no value is
    below itself, the order is transitive, and of two values exactly one
    of [a < b], [a == b] and [b < a] holds.  The other operators agree
    with it: [a <= b] is [a < b || a == b], [a >= b] is [a > b || a == b],
    and [a != b] is [a < b || a > b]. *)
Theorem operators_strict_total_order (a b c : uuidv7) :
  is_array16 (get_bytes a) = true -> is_array16 (get_bytes b) = true ->
  ltb a a = false /\
  (ltb a b = true -> ltb b c = true -> ltb a c = true) /\
  ((ltb a b = true /\ eqb a b = false /\ ltb b a = false) \/
   (ltb a b = false /\ eqb a b = true /\ ltb b a = false) \/
   (ltb a b = false /\ eqb a b = false /\ ltb b a = true)) /\
  operator_le a b = ltb a b || eqb a b /\
  operator_ge a b = operator_gt a b || eqb a b /\
  operator_ne a b = ltb a b || operator_gt a b.
Proof.
  unfold get_bytes. intros Ha Hb.
  assert (Hlen : length (data_ a) = length (data_ b)).
  { unfold is_array16 in Ha, Hb.
    apply andb_prop in Ha, Hb. destruct Ha as [Ha _], Hb as [Hb _].
    apply Nat.eqb_eq in Ha, Hb. congruence. }
  assert (Hcases :
    (ltb a b = true /\ eqb a b = false /\ ltb b a = false) \/
    (ltb a b = false /\ eqb a b = true /\ ltb b a = false) \/
    (ltb a b = false /\ eqb a b = false /\ ltb b a = true)).
  { unfold ltb.
    destruct (lexicographical_compare (data_ a) (data_ b)) eqn:Hab.
    - left. pose proof (lex_asym _ _ Hab) as Hba. rewrite Hba.
      repeat split. apply not_true_is_false. intros Heq.
      apply eqb_true_iff in Heq. subst b. rewrite lex_irrefl in Hab. discriminate Hab.
    - destruct (lexicographical_compare (data_ b) (data_ a)) eqn:Hba.
      + right. right. repeat split. apply not_true_is_false. intros Heq.
        apply eqb_true_iff in Heq. subst b. rewrite lex_irrefl in Hba. discriminate Hba.
      + right. left. repeat split. apply eqb_true_iff.
        pose proof (lex_connected _ _ Hlen Hab Hba) as Heq.
        destruct a, b. cbn [data_] in Heq. subst. reflexivity. }
  split; [apply lex_irrefl|].
  split; [unfold ltb; apply lex_trans|].
  split; [exact Hcases|].
  unfold operator_le, operator_ge, operator_gt, operator_ne.
  destruct Hcases as [(-> & -> & ->)|[(-> & -> & ->)|(-> & -> & ->)]];
    repeat split.
Qed.

Lemma operators_strict_total_order_witness :
  ltb seed_zero_tail seed_max_tail = true /\
  eqb seed_zero_tail seed_max_tail = false /\
  ltb seed_max_tail seed_zero_tail = false.
Proof.
  destruct (operators_strict_total_order seed_zero_tail seed_max_tail seed_max_tail)
    as (_ & _ & Hcases & _).
  - reflexivity.
  - reflexivity.
  - destruct Hcases as [Hlt|[(Hlt & _)|(Hlt & _)]];
      [exact Hlt | discriminate Hlt | discriminate Hlt].
Defined.

Lemma be_value_16 (a0 a1 a2 a3 a4 a5 a6 a7 a8 a9 a10 a11 a12 a13 a14 a15 : Z) :
  be_value [a0; a1; a2; a3; a4; a5; a6; a7; a8; a9; a10; a11; a12; a13; a14; a15]
  = (a0 * 2 ^ 40 + a1 * 2 ^ 32 + a2 * 2 ^ 24 + a3 * 2 ^ 16 + a4 * 2 ^ 8 + a5) * 2 ^ 80
    + a6 * 2 ^ 72 + a7 * 2 ^ 64
    + a8 * 2 ^ 56 + a9 * 2 ^ 48 + a10 * 2 ^ 40 + a11 * 2 ^ 32 + a12 * 2 ^ 24
    + a13 * 2 ^ 16 + a14 * 2 ^ 8 + a15.
Proof. unfold be_value. cbn [fold_left]. lia. Qed.

(** The sixteen bytes of a valid value as one number of 128 bits. *)
Lemma be_value_fields (d : list Z) :
  is_array16 d = true -> version_of d = VERSION -> variant_of d = VARIANT ->
  be_value d = timestamp_of d * 2 ^ 80 + 7 * 2 ^ 76 + rand_a_of d * 2 ^ 64
               + 2 * 2 ^ 62 + rand_b_of d /\
  0 <= timestamp_of d < 2 ^ 48 /\
  0 <= rand_a_of d <= MAX_RAND_A /\ 0 <= rand_b_of d <= MAX_RAND_B.
Proof.
  intros Hd Hver Hvar.
  destruct (valid_bytes d Hd Hver Hvar) as [H6 H8].
  unfold is_array16 in Hd. destruct_bytes 16 d Hd.
  destruct (land_low_bounds b5 Hb5) as [Hlow4 _].
  destruct (land_low_bounds b7 Hb7) as [_ Hlow6].
  rewrite be_value_16.
  unfold rand_a_of, rand_b_of, timestamp_of, MAX_RAND_A, MAX_RAND_B in *.
  lazy beta iota zeta delta [lookup_total list_lookup_total] in *.
  generalize dependent (Z.land b5 15). intros x6 H6 Hx6.
  generalize dependent (Z.land b7 63). intros x8 H8 Hx8.
  subst b5 b7. repeat split; lia.
Qed.

(** X4. The order of [operator<] on valid values is the order of the
    sixteen bytes read as one number of 128 bits, most significant byte
    first; and it is the order by timestamp first and by the 74-bit
    counter among equal timestamps. *)
Theorem order_is_timestamp_then_counter (a b : uuidv7) :
  valid a = true -> valid b = true ->
  ltb a b = (be_value (get_bytes a) <? be_value (get_bytes b)) /\
  (ltb a b = true <->
   timestamp_of (get_bytes a) < timestamp_of (get_bytes b) \/
   (timestamp_of (get_bytes a) = timestamp_of (get_bytes b) /\
    counter_of (get_bytes a) < counter_of (get_bytes b))).
Proof.
  unfold get_bytes. intros Ha Hb.
  apply valid_parts in Ha, Hb.
  destruct Ha as (Ha & Hvera & Hvara), Hb as (Hb & Hverb & Hvarb).
  assert (Hnum : ltb a b = (be_value (data_ a) <? be_value (data_ b)))
    by (apply lex_is_numeric; assumption).
  split; [exact Hnum|].
  rewrite Hnum, Z.ltb_lt.
  destruct (be_value_fields _ Ha Hvera Hvara) as (-> & Hta & Hraa & Hrba).
  destruct (be_value_fields _ Hb Hverb Hvarb) as (-> & Htb & Hrab & Hrbb).
  unfold counter_of, MAX_RAND_A, MAX_RAND_B in *.
  generalize dependent (timestamp_of (data_ a)). intros ta Hta.
  generalize dependent (timestamp_of (data_ b)). intros tb Htb.
  generalize dependent (rand_a_of (data_ a)). intros raa Hraa.
  generalize dependent (rand_a_of (data_ b)). intros rab Hrab.
  generalize dependent (rand_b_of (data_ a)). intros rba Hrba.
  generalize dependent (rand_b_of (data_ b)). intros rbb Hrbb.
  lia.
Qed.

Lemma order_is_timestamp_then_counter_witness :
  ltb seed_zero_tail seed_max_tail = true.
Proof.
  destruct (order_is_timestamp_then_counter seed_zero_tail seed_max_tail)
    as [_ Horder].
  - reflexivity.
  - reflexivity.
  - apply Horder. right. split; [reflexivity|]. vm_compute. reflexivity.
Defined.

(** ** [get_hash] *)

Lemma lor_shiftl_byte v b :
  0 <= v -> 0 <= b < 256 -> Z.lor (Z.shiftl v 8) b = v * 256 + b.
Proof.
  intros Hv Hb.
  assert (Hdisjoint : Z.land (Z.shiftl v 8) b = 0).
  { apply Z.bits_inj'. intros n Hn.
    rewrite Z.land_spec, Z.bits_0.
    destruct (Z.lt_ge_cases n 8) as [Hlow|Hhigh].
    - rewrite Z.shiftl_spec_low by lia. reflexivity.
    - rewrite <- (Z.mod_small b (2 ^ 8)) by lia.
      rewrite Z.mod_pow2_bits_high by lia. apply andb_false_r. }
  rewrite <- (Z.lxor_lor _ _ Hdisjoint), <- (Z.add_nocarry_lxor _ _ Hdisjoint).
  rewrite Z.shiftl_mul_pow2 by lia. reflexivity.
Qed.

Lemma to_size_t_nonneg Size z : 0 <= to_size_t Size z.
Proof. unfold to_size_t. apply Z.mod_pos_bound. apply Z.pow_pos_nonneg; lia. Qed.

Lemma lxor_range a b n :
  0 < n -> 0 <= a < 2 ^ n -> 0 <= b < 2 ^ n -> 0 <= Z.lxor a b < 2 ^ n.
Proof.
  intros Hn Ha Hb.
  assert (Hnonneg : 0 <= Z.lxor a b) by (apply Z.lxor_nonneg; lia).
  split; [exact Hnonneg|].
  destruct (Z.eq_dec (Z.lxor a b) 0) as [->|Hpos]; [apply Z.pow_pos_nonneg; lia|].
  apply Z.log2_lt_pow2; [lia|].
  pose proof (Z.log2_lxor a b ltac:(lia) ltac:(lia)) as Hlog.
  assert (Ha' : Z.log2 a < n).
  { destruct (Z.eq_dec a 0) as [->|]; [cbn; lia|]. apply Z.log2_lt_pow2; [lia|apply Ha]. }
  assert (Hb' : Z.log2 b < n).
  { destruct (Z.eq_dec b 0) as [->|]; [cbn; lia|]. apply Z.log2_lt_pow2; [lia|apply Hb]. }
  lia.
Qed.

Ltac strip_inner_mod :=
  repeat match goal with
         | |- context [?x mod ?m] =>
             lazymatch x with
             | context [_ mod _] => fail
             | _ => rewrite (Z.mod_small x m) by lia
             end
         end.

Lemma hash_chunk_8 (a0 a1 a2 a3 a4 a5 a6 a7 : Z) (pre post : list Z) (i : nat) :
  0 <= a0 < 256 -> 0 <= a1 < 256 -> 0 <= a2 < 256 -> 0 <= a3 < 256 ->
  0 <= a4 < 256 -> 0 <= a5 < 256 -> 0 <= a6 < 256 -> 0 <= a7 < 256 ->
  length pre = (i * 8)%nat ->
  hash_chunk 8 8 (pre ++ [a0; a1; a2; a3; a4; a5; a6; a7] ++ post) i 0 0
  = be_value [a0; a1; a2; a3; a4; a5; a6; a7]
  /\ 0 <= be_value [a0; a1; a2; a3; a4; a5; a6; a7] < 2 ^ 64.
Proof.
  intros H0 H1 H2 H3 H4 H5 H6 H7 Hpre.
  assert (Hget : forall j x, ([a0; a1; a2; a3; a4; a5; a6; a7] ++ post) !! j = Some x ->
                 (pre ++ [a0; a1; a2; a3; a4; a5; a6; a7] ++ post) !!! (i * 8 + j)%nat = x).
  { intros j x Hx. apply list_lookup_total_correct.
    rewrite lookup_app_r by lia. rewrite Hpre.
    replace (i * 8 + j - i * 8)%nat with j by lia. exact Hx. }
  cbn [hash_chunk].
  rewrite (Hget 0%nat a0), (Hget 1%nat a1), (Hget 2%nat a2), (Hget 3%nat a3),
    (Hget 4%nat a4), (Hget 5%nat a5), (Hget 6%nat a6), (Hget 7%nat a7) by reflexivity.
  rewrite !lor_shiftl_byte by (first [apply to_size_t_nonneg | lia | assumption]).
  unfold to_size_t, be_value. cbn [fold_left].
  change (2 ^ (8 * Z.of_nat 8)) with (2 ^ 64).
  strip_inner_mod. split; lia.
Qed.

Lemma hash_chunk_4 (a0 a1 a2 a3 : Z) (pre post : list Z) (i : nat) :
  0 <= a0 < 256 -> 0 <= a1 < 256 -> 0 <= a2 < 256 -> 0 <= a3 < 256 ->
  length pre = (i * 4)%nat ->
  hash_chunk 4 4 (pre ++ [a0; a1; a2; a3] ++ post) i 0 0 = be_value [a0; a1; a2; a3]
  /\ 0 <= be_value [a0; a1; a2; a3] < 2 ^ 32.
Proof.
  intros H0 H1 H2 H3 Hpre.
  assert (Hget : forall j x, ([a0; a1; a2; a3] ++ post) !! j = Some x ->
                 (pre ++ [a0; a1; a2; a3] ++ post) !!! (i * 4 + j)%nat = x).
  { intros j x Hx. apply list_lookup_total_correct.
    rewrite lookup_app_r by lia. rewrite Hpre.
    replace (i * 4 + j - i * 4)%nat with j by lia. exact Hx. }
  cbn [hash_chunk].
  rewrite (Hget 0%nat a0), (Hget 1%nat a1), (Hget 2%nat a2), (Hget 3%nat a3)
    by reflexivity.
  rewrite !lor_shiftl_byte by (first [apply to_size_t_nonneg | lia | assumption]).
  unfold to_size_t, be_value. cbn [fold_left].
  change (2 ^ (8 * Z.of_nat 4)) with (2 ^ 32).
  strip_inner_mod. split; lia.
Qed.

(** [get_hash] with an 8-byte [size_t]: the two halves, each read as a
    number, most significant byte first, combined by exclusive or. *)
Lemma get_hash_8_words (d : list Z) :
  is_array16 d = true ->
  get_hash 8 (from_array d) = Z.lxor (be_value (take 8 d)) (be_value (drop 8 d))
  /\ 0 <= be_value (take 8 d) < 2 ^ 64 /\ 0 <= be_value (drop 8 d) < 2 ^ 64.
Proof.
  intros Hd. unfold is_array16 in Hd. destruct_bytes 16 d Hd.
  unfold get_hash. cbn [data_ take drop].
  change (16 / 8)%nat with 2%nat. cbn [hash_loop].
  destruct (hash_chunk_8 b b0 b1 b2 b3 b4 b5 b6 [] [b7; b8; b9; b10; b11; b12; b13; b14] 0)
    as [Hfirst Hr1]; try assumption; [reflexivity|].
  destruct (hash_chunk_8 b7 b8 b9 b10 b11 b12 b13 b14 [b; b0; b1; b2; b3; b4; b5; b6] [] 1)
    as [Hsecond Hr2]; try assumption; [reflexivity|].
  cbn [app] in Hfirst, Hsecond. rewrite Hfirst, Hsecond, Z.lxor_0_l.
  split; [reflexivity|]. split; assumption.
Qed.

Lemma get_hash_4_words (d : list Z) :
  is_array16 d = true ->
  get_hash 4 (from_array d)
  = Z.lxor (Z.lxor (Z.lxor (be_value (take 4 d)) (be_value (take 4 (drop 4 d))))
                   (be_value (take 4 (drop 8 d))))
           (be_value (drop 12 d))
  /\ 0 <= be_value (take 4 d) < 2 ^ 32
  /\ 0 <= be_value (take 4 (drop 4 d)) < 2 ^ 32
  /\ 0 <= be_value (take 4 (drop 8 d)) < 2 ^ 32
  /\ 0 <= be_value (drop 12 d) < 2 ^ 32.
Proof.
  intros Hd. unfold is_array16 in Hd. destruct_bytes 16 d Hd.
  unfold get_hash. cbn [data_ take drop].
  change (16 / 4)%nat with 4%nat. cbn [hash_loop].
  destruct (hash_chunk_4 b b0 b1 b2 [] [b3; b4; b5; b6; b7; b8; b9; b10; b11; b12; b13; b14] 0)
    as [Hw0 Hr0]; try assumption; [reflexivity|].
  destruct (hash_chunk_4 b3 b4 b5 b6 [b; b0; b1; b2] [b7; b8; b9; b10; b11; b12; b13; b14] 1)
    as [Hw1 Hr1]; try assumption; [reflexivity|].
  destruct (hash_chunk_4 b7 b8 b9 b10 [b; b0; b1; b2; b3; b4; b5; b6] [b11; b12; b13; b14] 2)
    as [Hw2 Hr2]; try assumption; [reflexivity|].
  destruct (hash_chunk_4 b11 b12 b13 b14 [b; b0; b1; b2; b3; b4; b5; b6; b7; b8; b9; b10] [] 3)
    as [Hw3 Hr3]; try assumption; [reflexivity|].
  cbn [app] in Hw0, Hw1, Hw2, Hw3. rewrite Hw0, Hw1, Hw2, Hw3, Z.lxor_0_l.
  split; [reflexivity|]. repeat split; lia.
Qed.

(** X5. [get_hash] is the exclusive or of the words of the value, each
    word read most significant byte first: the two 8-byte halves where
    [size_t] has eight bytes, the four 4-byte quarters where it has four.
    No shift overflows [size_t], and the hash is below [2^64], resp.
    [2^32]. *)
Theorem get_hash_is_xor_of_words (u : uuidv7) :
  is_array16 (get_bytes u) = true ->
  get_hash 8 u
  = Z.lxor (be_value (take 8 (get_bytes u))) (be_value (drop 8 (get_bytes u))) /\
  0 <= get_hash 8 u < 2 ^ 64 /\
  get_hash 4 u
  = Z.lxor (Z.lxor (Z.lxor (be_value (take 4 (get_bytes u)))
                           (be_value (take 4 (drop 4 (get_bytes u)))))
                   (be_value (take 4 (drop 8 (get_bytes u)))))
           (be_value (drop 12 (get_bytes u))) /\
  0 <= get_hash 4 u < 2 ^ 32.
Proof.
  unfold get_bytes. intros Hd. destruct u as [d]. cbn [data_] in *.
  destruct (get_hash_8_words d Hd) as (H8 & Ha & Hb).
  destruct (get_hash_4_words d Hd) as (H4 & Hw0 & Hw1 & Hw2 & Hw3).
  rewrite H8, H4.
  split; [reflexivity|]. split; [apply lxor_range; lia|]. split; [reflexivity|].
  repeat (apply lxor_range; [lia| |assumption]). assumption.
Qed.

Lemma get_hash_is_xor_of_words_witness :
  get_hash 8 scenario_b
  = Z.lxor (be_value (take 8 (get_bytes scenario_b)))
           (be_value (drop 8 (get_bytes scenario_b))).
Proof.
  destruct (get_hash_is_xor_of_words scenario_b) as [Hwords _].
  - reflexivity.
  - exact Hwords.
Defined.

(** X6. [get_hash] does not see the order of the two halves of a value:
    the sixteen bytes with the two 8-byte halves exchanged have the same
    hash, with an 8-byte and with a 4-byte [size_t]. *)
Theorem get_hash_ignores_half_order (u : uuidv7) :
  is_array16 (get_bytes u) = true ->
  is_array16 (drop 8 (get_bytes u) ++ take 8 (get_bytes u)) = true /\
  get_hash 8 (from_array (drop 8 (get_bytes u) ++ take 8 (get_bytes u))) = get_hash 8 u /\
  get_hash 4 (from_array (drop 8 (get_bytes u) ++ take 8 (get_bytes u))) = get_hash 4 u.
Proof.
  unfold get_bytes. intros Hd. destruct u as [d]. cbn [data_] in *.
  assert (Hswap : is_array16 (drop 8 d ++ take 8 d) = true).
  { pose proof Hd as Hd'. unfold is_array16 in Hd'. destruct_bytes 16 d Hd'.
    cbn [take drop app]. array_in_range. }
  split; [exact Hswap|].
  destruct (get_hash_8_words d Hd) as (H8 & _).
  destruct (get_hash_8_words _ Hswap) as (H8' & _).
  destruct (get_hash_4_words d Hd) as (H4 & _).
  destruct (get_hash_4_words _ Hswap) as (H4' & _).
  rewrite H8, H8', H4, H4'.
  unfold is_array16 in Hd. destruct_bytes 16 d Hd. cbn [take drop app].
  split.
  - apply Z.lxor_comm.
  - apply Z.bits_inj'. intros n _. rewrite !Z.lxor_spec.
    destruct (Z.testbit (be_value [b; b0; b1; b2]) n),
      (Z.testbit (be_value [b3; b4; b5; b6]) n),
      (Z.testbit (be_value [b7; b8; b9; b10]) n),
      (Z.testbit (be_value [b11; b12; b13; b14]) n); reflexivity.
Qed.

Lemma get_hash_ignores_half_order_witness :
  get_hash 8 (from_array (drop 8 (get_bytes scenario_b) ++ take 8 (get_bytes scenario_b)))
  = get_hash 8 scenario_b.
Proof.
  destruct (get_hash_ignores_half_order scenario_b) as (_ & Hsame & _).
  - reflexivity.
  - exact Hsame.
Defined.

(** ** [to_string] *)

Lemma hex_digit_shape b :
  0 <= b < 256 ->
  is_lower_hex (hex_hi b) = true /\ is_lower_hex (hex_lo b) = true /\
  Ascii.eqb (hex_hi b) "-" = false /\ Ascii.eqb (hex_lo b) "-" = false.
Proof.
  intros Hb.
  pose (P := fun b =>
    is_lower_hex (hex_hi b) && is_lower_hex (hex_lo b)
    && negb (Ascii.eqb (hex_hi b) "-") && negb (Ascii.eqb (hex_lo b) "-")).
  assert (HP : P b = true) by (apply forall_u8; [vm_compute; reflexivity | lia]).
  unfold P in HP. rewrite !andb_true_iff, !negb_true_iff in HP. tauto.
Qed.

Ltac shapes_of_bytes :=
  repeat match goal with
         | H : 0 <= ?b < 256 |- _ =>
             let H1 := fresh "Hhi" in
             let H2 := fresh "Hlo" in
             let H3 := fresh "Hhy" in
             let H4 := fresh "Hly" in
             destruct (hex_digit_shape b H) as (H1 & H2 & H3 & H4); clear H
         end.

Lemma remove_hyphens_keep c s :
  Ascii.eqb c "-" = false -> remove_hyphens (String c s) = String c (remove_hyphens s).
Proof. intros H. cbn [remove_hyphens]. rewrite H. reflexivity. Qed.

Lemma remove_hyphens_drop s : remove_hyphens (String "-" s) = remove_hyphens s.
Proof. reflexivity. Qed.

(** X7. [to_string(false)] of sixteen bytes is, byte after byte, the two
    digits of the byte, high nibble first: 32 characters, each one of
    [0123456789abcdef]. *)
Theorem to_string_plain_shape (u : uuidv7) :
  is_array16 (get_bytes u) = true ->
  to_string u false
  = String.string_of_list_ascii (flat_map (fun b => [hex_hi b; hex_lo b]) (get_bytes u)) /\
  String.length (to_string u false) = 32%nat /\
  str_forallb is_lower_hex (to_string u false) = true.
Proof.
  unfold get_bytes. intros Hd. destruct u as [d]. cbn [data_] in *.
  unfold is_array16 in Hd. destruct_bytes 16 d Hd.
  lazy beta iota zeta delta
    [to_string to_string_loop str_set str_make get_bytes data_ Nat.eqb andb orb
     Nat.add lookup_total list_lookup_total].
  fold_hex_digits. shapes_of_bytes.
  split; [reflexivity|]. split; [reflexivity|].
  cbn [str_forallb].
  repeat match goal with H : is_lower_hex _ = true |- _ => rewrite H; clear H end.
  reflexivity.
Qed.

Lemma to_string_plain_shape_witness :
  String.length (to_string scenario_b false) = 32%nat /\
  str_forallb is_lower_hex (to_string scenario_b false) = true.
Proof.
  destruct (to_string_plain_shape scenario_b) as (_ & Hlength & Hlower).
  - reflexivity.
  - split; assumption.
Defined.

(** X8. [to_string(true)] of sixteen bytes has 36 characters, with a
    hyphen at each of the positions 8, 13, 18 and 23, and is
    [to_string(false)] once the hyphens are taken out. *)
Theorem to_string_hyphenated_shape (u : uuidv7) :
  is_array16 (get_bytes u) = true ->
  String.length (to_string u true) = 36%nat /\
  text_form (to_string u true) = Some true /\
  remove_hyphens (to_string u true) = to_string u false.
Proof.
  unfold get_bytes. intros Hd. destruct u as [d]. cbn [data_] in *.
  unfold is_array16 in Hd. destruct_bytes 16 d Hd.
  lazy beta iota zeta delta
    [to_string to_string_loop str_set str_make get_bytes data_ Nat.eqb andb orb
     Nat.add lookup_total list_lookup_total].
  fold_hex_digits. shapes_of_bytes.
  split; [reflexivity|].
  split.
  { lazy beta iota zeta delta
      [text_form hyphen_positions forallb String.length Nat.eqb char_at String.get
       Ascii.eqb Bool.eqb andb].
    reflexivity. }
  repeat first [rewrite remove_hyphens_keep by assumption | rewrite remove_hyphens_drop].
  reflexivity.
Qed.

Lemma to_string_hyphenated_shape_witness :
  remove_hyphens (to_string scenario_b true) = to_string scenario_b false.
Proof.
  destruct (to_string_hyphenated_shape scenario_b) as (_ & _ & Hplain).
  - reflexivity.
  - exact Hplain.
Defined.

(** ** [parse], again *)

Lemma lor_shiftl_nibble a b :
  0 <= a -> 0 <= b < 16 -> Z.lor (Z.shiftl a 4) b = a * 16 + b.
Proof.
  intros Ha Hb.
  assert (Hdisjoint : Z.land (Z.shiftl a 4) b = 0).
  { apply Z.bits_inj'. intros n Hn.
    rewrite Z.land_spec, Z.bits_0.
    destruct (Z.lt_ge_cases n 4) as [Hlow|Hhigh].
    - rewrite Z.shiftl_spec_low by lia. reflexivity.
    - rewrite <- (Z.mod_small b (2 ^ 4)) by lia.
      rewrite Z.mod_pow2_bits_high by lia. apply andb_false_r. }
  rewrite <- (Z.lxor_lor _ _ Hdisjoint), <- (Z.add_nocarry_lxor _ _ Hdisjoint).
  rewrite Z.shiftl_mul_pow2 by lia. reflexivity.
Qed.

Lemma digit_value_range c : 0 <= digit_value c < 16.
Proof.
  unfold digit_value. destruct (hex_value c) as [n|] eqn:Hc; [|lia].
  apply (hex_value_range c n Hc).
Qed.

Lemma hex_to_int_digit c :
  (hex_to_int c =? 0xFF) = false -> hex_to_int c = digit_value c.
Proof.
  intros H. rewrite hex_to_int_value in *. unfold digit_value.
  destruct (hex_value c); [reflexivity|]. discriminate H.
Qed.

Lemma hex_pair_value c c' :
  (hex_to_int c =? 0xFF) = false -> (hex_to_int c' =? 0xFF) = false ->
  u8 (Z.lor (Z.shiftl (hex_to_int c) 4) (hex_to_int c'))
  = digit_value c * 16 + digit_value c'.
Proof.
  intros Hc Hc'. rewrite (hex_to_int_digit c Hc), (hex_to_int_digit c' Hc').
  pose proof (digit_value_range c). pose proof (digit_value_range c').
  rewrite lor_shiftl_nibble by lia. apply u8_id. lia.
Qed.

Ltac digits_of_all_hex H :=
  lazy beta iota zeta delta
    [all_hex digit_positions hyphen_positions List.filter seq existsb forallb
     orb negb Nat.eqb char_at String.get] in H;
  repeat match type of H with
         | (_ && _) = true =>
             let H1 := fresh "Hdigit" in
             apply andb_prop in H; destruct H as [H1 H];
             rewrite is_hex_spec in H1; apply negb_true_iff in H1
         end;
  clear H.

Lemma parse_loop_decodes (s : string) (h : bool) :
  String.length s = (if h then 36%nat else 32%nat) ->
  all_hex h s = true ->
  parse_loop 16 h s 0 0 [0; 0; 0; 0; 0; 0; 112; 0; 128; 0; 0; 0; 0; 0; 0; 0]
  = (Success, decoded h s).
Proof.
  intros Hlen Hall. destruct h.
  - do 36 (destruct s as [|?c s]; [discriminate Hlen|]).
    destruct s; [|discriminate Hlen]. clear Hlen.
    digits_of_all_hex Hall.
    lazy beta iota zeta delta
      [parse_loop andb orb Nat.eqb Nat.add char_at String.get list_insert insert].
    rewrite_digits. lazy beta iota.
    lazy beta iota zeta delta
      [decoded map seq byte_position Nat.leb Nat.add Nat.mul char_at String.get].
    rewrite !hex_pair_value by assumption. reflexivity.
  - do 32 (destruct s as [|?c s]; [discriminate Hlen|]).
    destruct s; [|discriminate Hlen]. clear Hlen.
    digits_of_all_hex Hall.
    lazy beta iota zeta delta
      [parse_loop andb orb Nat.eqb Nat.add char_at String.get list_insert insert].
    rewrite_digits. lazy beta iota.
    lazy beta iota zeta delta
      [decoded map seq byte_position Nat.leb Nat.add Nat.mul char_at String.get].
    rewrite !hex_pair_value by assumption. reflexivity.
Qed.

Lemma variant_bits_test c :
  variant_bits_ok c = true ->
  (hex_to_int c =? 0xFF) = false /\
  (Z.shiftr (Z.land (hex_to_int c) 12) 2 =? VARIANT) = true.
Proof.
  intros Hbits.
  assert (Hhex : (hex_to_int c =? 0xFF) = false).
  { pose proof (variant_bits_ok_is_hex c Hbits) as H.
    rewrite is_hex_spec in H. apply negb_true_iff in H. exact H. }
  split; [exact Hhex|]. rewrite <- (variant_bits_spec c Hhex). exact Hbits.
Qed.

(** The texts [parse] accepts, and what it makes of them. *)
Lemma parse_success_value (s : string) (h : bool) :
  text_form s = Some h -> s.[version_position h] = "7"%char ->
  variant_bits_ok s.[variant_position h] = true -> all_hex h s = true ->
  parse s = inr (from_array (decoded h s)).
Proof.
  intros Hform Hver Hbits Hall.
  unfold parse. rewrite ctor_zero. cbn [data_].
  rewrite (parse_inner_good_form s _ h Hform). unfold parse_fields.
  destruct (variant_bits_test _ Hbits) as [Hhex Hten].
  rewrite Hver, Ascii.eqb_refl, Hhex, Hten. cbn [negb].
  rewrite (parse_loop_decodes s h (text_form_length s h Hform) Hall).
  reflexivity.
Qed.

Lemma parse_success_inv (s : string) (u : uuidv7) :
  parse s = inr u ->
  exists h, text_form s = Some h /\ s.[version_position h] = "7"%char /\
    variant_bits_ok s.[variant_position h] = true /\ all_hex h s = true /\
    u = from_array (decoded h s).
Proof.
  intros Hu. pose proof (parse_of_outcome s) as Hparse.
  destruct (text_form s) as [h|] eqn:Hform.
  - rewrite (parse_inner_outcome s _ h Hform) in Hparse.
    exists h. split; [reflexivity|].
    destruct (Ascii.eqb_spec s.[version_position h] "7") as [Hver|Hver];
      cbn [negb] in Hparse; [|congruence].
    destruct (is_hex s.[variant_position h]); cbn [negb] in Hparse; [|congruence].
    destruct (variant_bits_ok s.[variant_position h]) eqn:Hbits;
      cbn [negb] in Hparse; [|congruence].
    destruct (all_hex h s) eqn:Hall; [|congruence].
    repeat split; try assumption; try reflexivity.
    rewrite (parse_success_value s h Hform Hver Hbits Hall) in Hu. congruence.
  - rewrite (parse_inner_bad_form s _ Hform) in Hparse. cbn [fst] in Hparse.
    congruence.
Qed.

Lemma decoded_is_array16 (h : bool) (s : string) : is_array16 (decoded h s) = true.
Proof.
  unfold is_array16, decoded. apply andb_true_intro. split.
  - rewrite length_map, length_seq. reflexivity.
  - apply forallb_forall. intros x Hx. apply in_map_iff in Hx.
    destruct Hx as (i & <- & _). apply is_u8_spec.
    pose proof (digit_value_range s.[byte_position h i]).
    pose proof (digit_value_range s.[byte_position h i + 1]). lia.
Qed.

Lemma decoded_version (h : bool) (s : string) :
  s.[version_position h] = "7"%char -> version_of (decoded h s) = VERSION.
Proof.
  intros Hver. unfold version_of.
  assert (Hbyte : decoded h s !!! 6%nat
                  = 112 + digit_value s.[version_position h + 1]).
  { destruct h; cbn [version_position] in *;
      lazy beta iota zeta delta
        [decoded map seq byte_position Nat.leb Nat.add Nat.mul
         lookup_total list_lookup_total];
      rewrite Hver; reflexivity. }
  rewrite Hbyte.
  pose proof (digit_value_range s.[version_position h + 1]) as Hq.
  rewrite <- (version_byte_value _ Hq).
  destruct (version_byte _ Hq) as (_ & _ & H). exact H.
Qed.

Lemma variant_of_byte b :
  128 <= b < 192 -> Z.land (Z.shiftr b 6) 0x03 = VARIANT.
Proof.
  intros Hb.
  pose (P := fun b =>
    (b <? 128) || (192 <=? b) || (Z.land (Z.shiftr b 6) 0x03 =? VARIANT)).
  assert (HP : P b = true) by (apply forall_u8; [vm_compute; reflexivity | lia]).
  unfold P in HP.
  destruct (Z.ltb_spec b 128); [lia|]. destruct (Z.leb_spec 192 b); [lia|].
  apply Z.eqb_eq in HP. exact HP.
Qed.

Lemma decoded_variant (h : bool) (s : string) :
  variant_bits_ok s.[variant_position h] = true -> variant_of (decoded h s) = VARIANT.
Proof.
  intros Hbits. unfold variant_of.
  assert (Hbyte : decoded h s !!! 8%nat
                  = digit_value s.[variant_position h] * 16
                    + digit_value s.[variant_position h + 1]).
  { destruct h; reflexivity. }
  rewrite Hbyte.
  pose proof (digit_value_range s.[variant_position h + 1]) as Hq.
  unfold variant_bits_ok in Hbits. unfold digit_value at 1.
  destruct (hex_value s.[variant_position h]) as [n|] eqn:Hn; [|discriminate Hbits].
  pose proof (hex_value_range _ _ Hn) as Hrange.
  apply Z.eqb_eq in Hbits. unfold VARIANT in Hbits.
  apply variant_of_byte. Z.div_mod_to_equations; lia.
Qed.

(** X9. Whatever [parse] returns is valid: sixteen bytes with version 7
    and variant [0b10]; byte [i] is sixteen times the value of its first
    digit plus the value of its second. *)
Theorem parse_result_is_valid (s : string) (u : uuidv7) :
  parse s = inr u ->
  valid u = true /\
  exists h, text_form s = Some h /\ get_bytes u = decoded h s.
Proof.
  intros Hu.
  destruct (parse_success_inv s u Hu) as (h & Hform & Hver & Hbits & Hall & ->).
  split.
  - apply valid_parts. cbn [data_].
    split; [apply decoded_is_array16|].
    split; [apply decoded_version; exact Hver | apply decoded_variant; exact Hbits].
  - exists h. split; [exact Hform | reflexivity].
Qed.

Lemma parse_result_is_valid_witness : valid scenario_b = true.
Proof.
  destruct (parse_result_is_valid "01965347-E56D-7571-A1BB-6120DBA3A645" scenario_b) as [Hvalid _].
  - reflexivity.
  - exact Hvalid.
Defined.

Lemma hex_char_of_digit c :
  (hex_to_int c =? 0xFF) = false ->
  HEX_CHARS.[Z.to_nat (digit_value c)] = ascii_lower c /\
  Ascii.eqb c "-" = false /\ is_hex c = true.
Proof.
  destruct c as [[] [] [] [] [] [] [] []]; intros H; try discriminate H;
    repeat split.
Qed.

Lemma hex_of_pair c c' :
  (hex_to_int c =? 0xFF) = false -> (hex_to_int c' =? 0xFF) = false ->
  hex_hi (digit_value c * 16 + digit_value c') = ascii_lower c /\
  hex_lo (digit_value c * 16 + digit_value c') = ascii_lower c'.
Proof.
  intros Hc Hc'.
  destruct (hex_char_of_digit c Hc) as (<- & _). destruct (hex_char_of_digit c' Hc') as (<- & _).
  pose proof (digit_value_range c). pose proof (digit_value_range c').
  unfold hex_hi, hex_lo.
  change 0x0F with (Z.ones 4). rewrite !Z.land_ones, Z.shiftr_div_pow2 by lia.
  split; do 2 f_equal; Z.div_mod_to_equations; lia.
Qed.

Ltac hyphens_of_form H :=
  lazy beta iota zeta delta
    [text_form hyphen_positions forallb String.length Nat.eqb char_at String.get] in H;
  repeat match type of H with
         | context [Ascii.eqb ?c "-"] =>
             destruct (Ascii.eqb_spec c "-"); [subst c|discriminate H]
         end;
  clear H.

(** X10. [to_string] after [parse] puts a text into lower case and
    changes nothing else: for a text that [parse] accepts, [to_string] in
    the form of the text (with hyphens for 36 characters, without for 32)
    is the text with its letters in lower case. *)
Theorem to_string_of_parse (s : string) (u : uuidv7) (h : bool) :
  parse s = inr u -> text_form s = Some h ->
  to_string u h = str_map ascii_lower s.
Proof.
  intros Hu Hform.
  destruct (parse_success_inv s u Hu) as (h' & Hform' & _ & _ & Hall & ->).
  assert (h' = h) by congruence. subst h'. clear Hform' Hu.
  pose proof (text_form_length s h Hform) as Hlen.
  destruct h.
  - do 36 (destruct s as [|?c s]; [discriminate Hlen|]).
    destruct s; [|discriminate Hlen]. clear Hlen.
    digits_of_all_hex Hall. hyphens_of_form Hform.
    lazy beta iota zeta delta
      [decoded map seq byte_position Nat.leb Nat.add Nat.mul char_at String.get].
    lazy beta iota zeta delta
      [to_string to_string_loop str_set str_make get_bytes data_ Nat.eqb andb orb
       Nat.add lookup_total list_lookup_total].
    fold_hex_digits.
    cbn [str_map]. change (ascii_lower "-") with "-"%char.
    repeat match goal with
           | |- context [hex_hi (digit_value ?c * 16 + digit_value ?c')] =>
               let Hhi := fresh in let Hlo := fresh in
               destruct (hex_of_pair c c' ltac:(assumption) ltac:(assumption)) as [Hhi Hlo];
               rewrite Hhi, Hlo; clear Hhi Hlo
           end.
    reflexivity.
  - do 32 (destruct s as [|?c s]; [discriminate Hlen|]).
    destruct s; [|discriminate Hlen]. clear Hlen.
    digits_of_all_hex Hall.
    lazy beta iota zeta delta
      [decoded map seq byte_position Nat.leb Nat.add Nat.mul char_at String.get].
    lazy beta iota zeta delta
      [to_string to_string_loop str_set str_make get_bytes data_ Nat.eqb andb orb
       Nat.add lookup_total list_lookup_total].
    fold_hex_digits.
    cbn [str_map].
    repeat match goal with
           | |- context [hex_hi (digit_value ?c * 16 + digit_value ?c')] =>
               let Hhi := fresh in let Hlo := fresh in
               destruct (hex_of_pair c c' ltac:(assumption) ltac:(assumption)) as [Hhi Hlo];
               rewrite Hhi, Hlo; clear Hhi Hlo
           end.
    reflexivity.
Qed.

Lemma to_string_of_parse_witness :
  to_string scenario_b true = str_map ascii_lower "01965347-E56D-7571-A1BB-6120DBA3A645".
Proof.
  apply (to_string_of_parse "01965347-E56D-7571-A1BB-6120DBA3A645" scenario_b true); reflexivity.
Defined.

Lemma ascii_lower_same c :
  hex_to_int (ascii_lower c) = hex_to_int c /\
  Ascii.eqb (ascii_lower c) "-" = Ascii.eqb c "-" /\
  Ascii.eqb (ascii_lower c) "7" = Ascii.eqb c "7".
Proof. destruct c as [[] [] [] [] [] [] [] []]; repeat split. Qed.

Lemma str_map_length f s : String.length (str_map f s) = String.length s.
Proof. induction s as [|c s IH]; cbn [str_map String.length]; congruence. Qed.

Lemma char_at_str_map f s :
  f "000"%char = "000"%char -> forall i, (str_map f s).[i] = f s.[i].
Proof.
  intros Hf. unfold char_at.
  induction s as [|c s IH]; intros i; cbn [str_map String.get].
  - symmetry. exact Hf.
  - destruct i as [|i]; [reflexivity|]. apply IH.
Qed.

(** [parse_inner] looks at a text through its length, the value of its
    characters as digits, and their being a hyphen or a seven. *)
Lemma parse_loop_ext (s s' : string) :
  (forall i, hex_to_int s.[i] = hex_to_int s'.[i]) ->
  forall n h c i r, parse_loop n h s c i r = parse_loop n h s' c i r.
Proof.
  intros Hsame n. induction n as [|n IH]; intros h c i r; cbn [parse_loop].
  - reflexivity.
  - rewrite !Hsame. destruct (_ || _); [reflexivity|]. apply IH.
Qed.

Lemma parse_inner_ext (s s' : string) (r : list Z) :
  String.length s = String.length s' ->
  (forall i, hex_to_int s.[i] = hex_to_int s'.[i]) ->
  (forall i, Ascii.eqb s.[i] "-" = Ascii.eqb s'.[i] "-") ->
  (forall i, Ascii.eqb s.[i] "7" = Ascii.eqb s'.[i] "7") ->
  parse_inner s r = parse_inner s' r.
Proof.
  intros Hlen Hhex Hhyphen Hseven. unfold parse_inner, parse_fields.
  rewrite Hlen, !Hhyphen, !Hseven, !Hhex.
  rewrite !(parse_loop_ext s s' Hhex). reflexivity.
Qed.

Lemma parse_inner_lower (s : string) (r : list Z) :
  parse_inner (str_map ascii_lower s) r = parse_inner s r.
Proof.
  apply parse_inner_ext.
  - apply str_map_length.
  - intros i. rewrite char_at_str_map by reflexivity. apply ascii_lower_same.
  - intros i. rewrite char_at_str_map by reflexivity. apply ascii_lower_same.
  - intros i. rewrite char_at_str_map by reflexivity. apply ascii_lower_same.
Qed.

(** X11. [parse] and [try_parse] do not see the case of letters: two
    texts that are equal once in lower case give the same value or the
    same failure. *)
Theorem parse_ignores_case (s s' : string) :
  str_map ascii_lower s = str_map ascii_lower s' ->
  parse s = parse s' /\ try_parse s = try_parse s'.
Proof.
  intros Hsame.
  assert (Hinner : forall r, parse_inner s r = parse_inner s' r).
  { intros r. rewrite <- (parse_inner_lower s), <- (parse_inner_lower s'), Hsame.
    reflexivity. }
  unfold parse, try_parse. rewrite ctor_zero. cbn [data_]. rewrite Hinner.
  split; reflexivity.
Qed.

Lemma parse_ignores_case_witness :
  parse "01965347-E56D-7571-A1BB-6120DBA3A645" = parse "01965347-e56d-7571-a1bb-6120dba3a645".
Proof.
  apply (parse_ignores_case "01965347-E56D-7571-A1BB-6120DBA3A645" "01965347-e56d-7571-a1bb-6120dba3a645").
  reflexivity.
Defined.

(** X12. A text of 36 characters that [parse] accepts is accepted without
    its hyphens as well, as 32 characters, with the same value. *)
Theorem parse_without_hyphens (s : string) (u : uuidv7) :
  text_form s = Some true -> parse s = inr u ->
  String.length (remove_hyphens s) = 32%nat /\ parse (remove_hyphens s) = inr u.
Proof.
  intros Hform Hu.
  destruct (parse_success_inv s u Hu) as (h & Hform' & Hver & Hbits & Hall & ->).
  assert (h = true) by congruence. subst h. clear Hform' Hu.
  pose proof (text_form_length s true Hform) as Hlen.
  cbn [version_position variant_position] in Hver, Hbits.
  do 36 (destruct s as [|?c s]; [discriminate Hlen|]).
  destruct s; [|discriminate Hlen]. clear Hlen.
  pose proof Hall as Hall'.
  digits_of_all_hex Hall. hyphens_of_form Hform.
  repeat first
    [ rewrite remove_hyphens_drop
    | rewrite remove_hyphens_keep by (apply hex_char_of_digit; assumption) ].
  split; [reflexivity|].
  rewrite (parse_success_value _ false).
  - reflexivity.
  - reflexivity.
  - exact Hver.
  - exact Hbits.
  - lazy beta iota zeta delta
      [all_hex digit_positions hyphen_positions List.filter seq existsb forallb
       orb negb Nat.eqb char_at String.get] in Hall' |- *.
    exact Hall'.
Qed.

Lemma parse_without_hyphens_witness :
  parse (remove_hyphens "01965347-E56D-7571-A1BB-6120DBA3A645") = inr scenario_b.
Proof.
  apply (parse_without_hyphens "01965347-E56D-7571-A1BB-6120DBA3A645" scenario_b); reflexivity.
Defined.

(** ** [generate], again *)

Lemma timestamp_of_prefix (d d' : list Z) :
  is_array16 d = true -> is_array16 d' = true ->
  firstn 6 d = firstn 6 d' -> timestamp_of d = timestamp_of d'.
Proof.
  intros Hd Hd' Hprefix. unfold is_array16 in Hd, Hd'.
  destruct_bytes 16 d Hd. destruct_bytes 16 d' Hd'.
  cbn [firstn] in Hprefix. injection Hprefix as -> -> -> -> -> ->. reflexivity.
Qed.

Lemma timestamp_of_millis_bytes (d : list Z) (millis : Z) :
  is_array16 d = true -> firstn 6 d = millis_bytes_of millis ->
  timestamp_of d = millis mod 2 ^ 48.
Proof.
  intros Hd Hprefix. unfold is_array16 in Hd. destruct_bytes 16 d Hd.
  rewrite millis_bytes_of_eq in Hprefix. cbn [firstn] in Hprefix.
  injection Hprefix as -> -> -> -> -> ->.
  unfold timestamp_of. lazy beta iota zeta delta [lookup_total list_lookup_total].
  apply bytes_of_48.
Qed.

(** One call while the clock is not ahead and the counter is not all ones. *)
Lemma generate_increment (millis : Z) (rng : csprng) (last : uuidv7) :
  is_array16 (data_ last) = true ->
  ~ (timestamp_of (data_ last) < millis mod 2 ^ 48) ->
  counter_of (data_ last) <> 2 ^ 74 - 1 ->
  exists u,
    generate millis rng last = (inr u, u, rng) /\
    is_array16 (data_ u) = true /\
    timestamp_of (data_ u) = timestamp_of (data_ last) /\
    counter_of (data_ u) = counter_of (data_ last) + 1.
Proof.
  intros Hd Hts Hcount.
  rewrite (generate_not_advanced millis rng last Hd Hts).
  pose proof (increment_tail_spec (data_ last) Hd) as Hspec.
  destruct (increment_tail (data_ last)) as [[e|[]] d'].
  - destruct Hspec as [Hmax _]. contradiction.
  - destruct Hspec as (Hd' & Hprefix & _ & Hnext & _).
    exists (from_array d'). cbn [data_].
    repeat split; try assumption.
    apply timestamp_of_prefix; assumption.
Qed.

(** X13. The two fixed fields survive every call: if the stored value is
    valid before a call of [generate], it is valid after it, whether the
    call returns or throws; and a value the call returns is the value it
    stored, with version 7 and variant [0b10]. *)
Theorem generate_keeps_fixed_bits
    (millis : Z) (rng rng' : csprng) (last last' : uuidv7) (r : result uuidv7) :
  valid last = true -> csprng_ok rng ->
  generate millis rng last = (r, last', rng') ->
  valid last' = true /\
  (forall u, r = inr u -> last' = u /\ version_of (get_bytes u) = 7
                          /\ variant_of (get_bytes u) = 2).
Proof.
  intros Hvalid Hrng Hgen.
  pose proof (generate_preserves_valid _ _ _ _ _ _ Hvalid Hrng Hgen) as Hvalid'.
  split; [exact Hvalid'|].
  intros u ->.
  apply valid_parts in Hvalid. destruct Hvalid as (Hd & _).
  destruct (generate_success _ _ _ _ _ _ Hd Hrng Hgen) as (-> & _).
  apply valid_parts in Hvalid'. unfold get_bytes. tauto.
Qed.

Lemma generate_keeps_fixed_bits_witness : valid (from_array [4; 24; 70; 232; 28; 152; 112; 0; 128; 0; 0; 0; 0; 0; 0; 1]) = true.
Proof.
  destruct (generate_keeps_fixed_bits 1793620800000 (mk_csprng (fun _ => inr [0xAB; 0xFF; 0xFF; 0xFF; 0xFF; 0xFF; 0xFF; 0xFF; 0xFF; 0xFF]) 0) (mk_csprng (fun _ => inr [0xAB; 0xFF; 0xFF; 0xFF; 0xFF; 0xFF; 0xFF; 0xFF; 0xFF; 0xFF]) 0)
              seed_zero_tail (from_array [4; 24; 70; 232; 28; 152; 112; 0; 128; 0; 0; 0; 0; 0; 0; 1]) (inr (from_array [4; 24; 70; 232; 28; 152; 112; 0; 128; 0; 0; 0; 0; 0; 0; 1]))) as [Hvalid _].
  - reflexivity.
  - intros n bytes Hout; cbn [outcome] in Hout; injection Hout as <-; reflexivity.
  - reflexivity.
  - exact Hvalid.
Defined.

(** X14. The stored timestamp never goes back.  A call that returns
    leaves the larger of the stored timestamp and the clock reading
    (modulo [2^48]) in the value; a call that throws leaves the stored
    timestamp as it was. *)
Theorem generate_timestamp_never_goes_back
    (millis : Z) (rng rng' : csprng) (last last' : uuidv7) (r : result uuidv7) :
  is_array16 (get_bytes last) = true -> csprng_ok rng ->
  generate millis rng last = (r, last', rng') ->
  timestamp_of (get_bytes last) <= timestamp_of (get_bytes last') /\
  (forall u, r = inr u ->
     timestamp_of (get_bytes u)
     = Z.max (timestamp_of (get_bytes last)) (millis mod 2 ^ 48)) /\
  (forall e, r = inl e ->
     timestamp_of (get_bytes last') = timestamp_of (get_bytes last)).
Proof.
  unfold get_bytes. intros Hd Hrng Hgen.
  destruct (Z_lt_dec (timestamp_of (data_ last)) (millis mod 2 ^ 48)) as [Hts|Hts].
  - destruct (outcome rng (calls rng)) as [e|rand] eqn:Hout.
    + rewrite (generate_csprng_failure millis rng last e Hd Hts Hout) in Hgen.
      injection Hgen as <- <- _.
      split; [lia|]. split; [intros u Hu; discriminate Hu | reflexivity].
    + pose proof (Hrng _ _ Hout) as Hrand.
      destruct (generate_advanced_valid millis rng last rand Hd Hrand Hts Hout)
        as (v & Hv & Hvalid & Hprefix).
      rewrite Hv in Hgen. injection Hgen as <- <- _.
      apply valid_parts in Hvalid. destruct Hvalid as (Hd' & _).
      pose proof (timestamp_of_millis_bytes _ _ Hd' Hprefix) as Hnow.
      split; [lia|]. split; [|intros e He; discriminate He].
      intros u Hu. injection Hu as <-. lia.
  - rewrite (generate_not_advanced millis rng last Hd Hts) in Hgen.
    pose proof (increment_tail_spec (data_ last) Hd) as Hspec.
    destruct (increment_tail (data_ last)) as [[e|[]] d'].
    + injection Hgen as <- <- _. destruct Hspec as (_ & _ & ->). cbn [data_].
      assert (Hsame : timestamp_of (take 7 (data_ last) ++ [0; 128; 0; 0; 0; 0; 0; 0; 0])
                      = timestamp_of (data_ last)).
      { unfold is_array16 in Hd. destruct last as [d]. cbn [data_] in *.
        destruct_bytes 16 d Hd. reflexivity. }
      split; [lia|]. split; [intros u Hu; discriminate Hu|].
      intros _ _. exact Hsame.
    + injection Hgen as <- <- _. destruct Hspec as (Hd' & Hprefix & _). cbn [data_].
      pose proof (timestamp_of_prefix _ _ Hd' Hd Hprefix) as Hsame.
      split; [lia|]. split; [|intros e He; discriminate He].
      intros u Hu. injection Hu as <-. cbn [data_]. lia.
Qed.

Lemma generate_timestamp_never_goes_back_witness :
  timestamp_of (get_bytes seed_zero_tail) <= timestamp_of (get_bytes (from_array [4; 24; 70; 232; 28; 152; 112; 0; 128; 0; 0; 0; 0; 0; 0; 1])).
Proof.
  destruct (generate_timestamp_never_goes_back 1793620800000 (mk_csprng (fun _ => inr [0xAB; 0xFF; 0xFF; 0xFF; 0xFF; 0xFF; 0xFF; 0xFF; 0xFF; 0xFF]) 0) (mk_csprng (fun _ => inr [0xAB; 0xFF; 0xFF; 0xFF; 0xFF; 0xFF; 0xFF; 0xFF; 0xFF; 0xFF]) 0)
              seed_zero_tail (from_array [4; 24; 70; 232; 28; 152; 112; 0; 128; 0; 0; 0; 0; 0; 0; 1]) (inr (from_array [4; 24; 70; 232; 28; 152; 112; 0; 128; 0; 0; 0; 0; 0; 0; 1]))) as [Hle _].
  - reflexivity.
  - intros n bytes Hout; cbn [outcome] in Hout; injection Hout as <-; reflexivity.
  - reflexivity.
  - exact Hle.
Defined.

(** X15. [generate] calls the CSPRNG once when the stored timestamp is
    below the clock reading and not at all otherwise, whether the call
    returns or throws. *)
Theorem generate_calls_csprng_only_when_clock_advanced
    (millis : Z) (rng rng' : csprng) (last last' : uuidv7) (r : result uuidv7) :
  is_array16 (get_bytes last) = true ->
  generate millis rng last = (r, last', rng') ->
  outcome rng' = outcome rng /\
  calls rng' = (if timestamp_of (get_bytes last) <? millis mod 2 ^ 48
                then S (calls rng) else calls rng).
Proof.
  unfold get_bytes. intros Hd Hgen. unfold generate in Hgen.
  rewrite (memcmp_timestamp _ millis Hd) in Hgen.
  destruct (timestamp_of (data_ last) <? millis mod 2 ^ 48).
  - unfold generate_random in Hgen.
    destruct (outcome rng (calls rng)); injection Hgen as _ _ <-; split; reflexivity.
  - destruct (increment_tail (data_ last)) as [[e|[]] d'];
      injection Hgen as _ _ <-; destruct rng; split; reflexivity.
Qed.

Lemma generate_calls_csprng_only_when_clock_advanced_witness :
  calls (mk_csprng (fun _ => inr [0xAB; 0xFF; 0xFF; 0xFF; 0xFF; 0xFF; 0xFF; 0xFF; 0xFF; 0xFF]) 0) = 0%nat.
Proof.
  destruct (generate_calls_csprng_only_when_clock_advanced 1793620800000 (mk_csprng (fun _ => inr [0xAB; 0xFF; 0xFF; 0xFF; 0xFF; 0xFF; 0xFF; 0xFF; 0xFF; 0xFF]) 0)
              (mk_csprng (fun _ => inr [0xAB; 0xFF; 0xFF; 0xFF; 0xFF; 0xFF; 0xFF; 0xFF; 0xFF; 0xFF]) 0) seed_zero_tail (from_array [4; 24; 70; 232; 28; 152; 112; 0; 128; 0; 0; 0; 0; 0; 0; 1]) (inr (from_array [4; 24; 70; 232; 28; 152; 112; 0; 128; 0; 0; 0; 0; 0; 0; 1]))) as [_ Hcalls].
  - reflexivity.
  - reflexivity.
  - exact Hcalls.
Defined.

Lemma increment_tail_error (d d' : list Z) (e : exn) :
  increment_tail d = (inl e, d') ->
  e = sequence_overflow_error
        "Too many UUIDs generated in the same millisecond; sequence counter overflowed.".
Proof.
  unfold increment_tail, carry_head.
  destruct (carry_loop 15 d) as [d1 target].
  destruct (0 <? target)%nat; [|discriminate].
  repeat match goal with
         | |- context [if ?c then _ else _] => destruct c
         end;
    intros H; first [discriminate H | injection H as <- _; reflexivity].
Qed.

(** X16. [generate] throws in two cases and no other.  With the stored
    timestamp below the clock reading it throws exactly when the CSPRNG
    does, the same exception, and the stored value is then unchanged.
    Otherwise it throws exactly when the 74-bit counter is all ones, and
    then [sequence_overflow_error]. *)
Theorem generate_fails_in_two_ways
    (millis : Z) (rng : csprng) (last : uuidv7) (e : exn) :
  is_array16 (get_bytes last) = true ->
  (fst (fst (generate millis rng last)) = inl e <->
   (timestamp_of (get_bytes last) < millis mod 2 ^ 48 /\
    outcome rng (calls rng) = inl e) \/
   (~ (timestamp_of (get_bytes last) < millis mod 2 ^ 48) /\
    counter_of (get_bytes last) = 2 ^ 74 - 1 /\
    e = sequence_overflow_error
          "Too many UUIDs generated in the same millisecond; sequence counter overflowed.")) /\
  (timestamp_of (get_bytes last) < millis mod 2 ^ 48 ->
   outcome rng (calls rng) = inl e ->
   snd (fst (generate millis rng last)) = last).
Proof.
  unfold get_bytes. intros Hd. split.
  - destruct (Z_lt_dec (timestamp_of (data_ last)) (millis mod 2 ^ 48)) as [Hts|Hts].
    + unfold generate. rewrite (memcmp_timestamp _ millis Hd).
      pose proof Hts as Hts'. apply Z.ltb_lt in Hts'. rewrite Hts'.
      unfold generate_random.
      destruct (outcome rng (calls rng)) as [e'|rand]; cbn [fst].
      * split.
        -- intros He. left. split; [exact Hts | congruence].
        -- intros [[_ He]|[Hnot _]]; [congruence | contradiction].
      * split.
        -- intros He. discriminate He.
        -- intros [[_ He]|[Hnot _]]; [discriminate He | contradiction].
    + rewrite (generate_not_advanced millis rng last Hd Hts).
      pose proof (increment_tail_spec (data_ last) Hd) as Hspec.
      destruct (increment_tail (data_ last)) as [[e'|[]] d'] eqn:Hinc; cbn [fst].
      * pose proof (increment_tail_error _ _ _ Hinc) as He'.
        destruct Hspec as (Hmax & _).
        split.
        -- intros He. right. split; [exact Hts|]. split; [exact Hmax | congruence].
        -- intros [[Hlt _]|(_ & _ & ->)]; [contradiction | congruence].
      * destruct Hspec as (_ & _ & Hnot & _).
        split; [intros He; discriminate He|].
        intros [[Hlt _]|(_ & Hmax' & _)]; contradiction.
  - intros Hts Hout.
    rewrite (generate_csprng_failure millis rng last e Hd Hts Hout). reflexivity.
Qed.

Lemma generate_fails_in_two_ways_witness :
  fst (fst (generate 1793620800000 (mk_csprng (fun _ => inr [0xAB; 0xFF; 0xFF; 0xFF; 0xFF; 0xFF; 0xFF; 0xFF; 0xFF; 0xFF]) 0) seed_max_tail))
  = inl (sequence_overflow_error
           "Too many UUIDs generated in the same millisecond; sequence counter overflowed.").
Proof.
  destruct (generate_fails_in_two_ways 1793620800000 (mk_csprng (fun _ => inr [0xAB; 0xFF; 0xFF; 0xFF; 0xFF; 0xFF; 0xFF; 0xFF; 0xFF; 0xFF]) 0) seed_max_tail
              (sequence_overflow_error
                 "Too many UUIDs generated in the same millisecond; sequence counter overflowed."))
    as [Hcases _].
  - reflexivity.
  - apply Hcases. right.
    split; [vm_compute; discriminate|]. split; reflexivity.
Defined.

(** X17. While the clock does not pass the stored timestamp, [generate]
    counts: as many calls as the counter has room for all return, the
    [k]-th of them (from 0) the stored timestamp with the counter raised
    by [k + 1]; the CSPRNG is not called, and the stored value ends with
    the counter raised by the number of calls. *)
Theorem generate_counts_within_millisecond (clock : list Z) :
  forall (rng : csprng) (last : uuidv7),
    is_array16 (get_bytes last) = true ->
    Forall (fun millis => ~ (timestamp_of (get_bytes last) < millis mod 2 ^ 48)) clock ->
    counter_of (get_bytes last) + Z.of_nat (length clock) <= 2 ^ 74 - 1 ->
    exists outs last',
      generate_seq clock rng last = (map inr outs, last', rng) /\
      length outs = length clock /\
      (forall k u, outs !! k = Some u ->
         counter_of (get_bytes u) = counter_of (get_bytes last) + Z.of_nat k + 1 /\
         timestamp_of (get_bytes u) = timestamp_of (get_bytes last)) /\
      counter_of (get_bytes last') = counter_of (get_bytes last) + Z.of_nat (length clock) /\
      timestamp_of (get_bytes last') = timestamp_of (get_bytes last).
Proof.
  unfold get_bytes.
  induction clock as [|millis clock IH]; intros rng last Hd Hclock Hroom.
  - exists [], last. cbn [generate_seq map length].
    split; [reflexivity|]. split; [reflexivity|].
    split; [intros k u Hk; discriminate Hk|].
    split; [lia | reflexivity].
  - apply Forall_cons in Hclock. destruct Hclock as [Hts Hclock].
    cbn [length] in Hroom.
    destruct (generate_increment millis rng last Hd Hts ltac:(lia))
      as (u & Hgen & Hd' & Hts' & Hnext).
    destruct (IH rng u Hd') as (outs & last' & Hseq & Hlen & Hout & Hlast & Hlastts).
    { rewrite Hts'. exact Hclock. }
    { lia. }
    exists (u :: outs), last'. cbn [generate_seq]. rewrite Hgen, Hseq.
    split; [reflexivity|]. split; [cbn [length]; lia|].
    split; [|cbn [length]; split; [lia | congruence]].
    intros k v Hk. destruct k as [|k'].
    + injection Hk as <-. split; [lia | exact Hts'].
    + destruct (Hout k' v Hk) as [Hc Ht]. split; [lia | congruence].
Qed.

Lemma generate_counts_within_millisecond_witness :
  exists outs last',
    generate_seq [1793620800000; 1793620799000; 1793620800000] (mk_csprng (fun _ => inr [0xAB; 0xFF; 0xFF; 0xFF; 0xFF; 0xFF; 0xFF; 0xFF; 0xFF; 0xFF]) 0) seed_zero_tail
    = (map inr outs, last', (mk_csprng (fun _ => inr [0xAB; 0xFF; 0xFF; 0xFF; 0xFF; 0xFF; 0xFF; 0xFF; 0xFF; 0xFF]) 0)) /\
    length outs = 3%nat.
Proof.
  destruct (generate_counts_within_millisecond
              [1793620800000; 1793620799000; 1793620800000] (mk_csprng (fun _ => inr [0xAB; 0xFF; 0xFF; 0xFF; 0xFF; 0xFF; 0xFF; 0xFF; 0xFF; 0xFF]) 0) seed_zero_tail)
    as (outs & last' & Hseq & Hlen & _).
  - reflexivity.
  - repeat constructor; vm_compute; discriminate.
  - vm_compute. discriminate.
  - exists outs, last'. split; assumption.
Defined.

Lemma StronglySorted_NoDup (l : list uuidv7) : StronglySorted uuid_lt l -> NoDup l.
Proof.
  induction 1 as [|x l Hsorted IH Hall].
  - constructor.
  - constructor; [|exact IH].
    intros Hin. rewrite Forall_forall in Hall. specialize (Hall x Hin).
    unfold uuid_lt, ltb in Hall. rewrite lex_irrefl in Hall. discriminate Hall.
Qed.

(** X18. Calls of [generate] in immediate succession that all return
    never return a value twice, and never return the value the generator
    was seeded with. *)
Theorem generate_never_repeats
    (clock : list Z) (rng : csprng) (last : uuidv7) (outs : list uuidv7) :
  is_array16 (get_bytes last) = true -> csprng_ok rng ->
  fst (fst (generate_seq clock rng last)) = map inr outs ->
  NoDup (last :: outs).
Proof.
  intros Hd Hrng Hseq.
  destruct (generate_seq_sorted clock rng last outs Hd Hrng Hseq) as [Hsorted _].
  apply StronglySorted_NoDup.
  apply Sorted_StronglySorted; [exact uuid_lt_trans | exact Hsorted].
Qed.

Lemma generate_never_repeats_witness :
  NoDup [seed_zero_tail; (from_array [4; 24; 70; 232; 28; 152; 112; 0; 128; 0; 0; 0; 0; 0; 0; 1])].
Proof.
  apply (generate_never_repeats [1793620800000] (mk_csprng (fun _ => inr [0xAB; 0xFF; 0xFF; 0xFF; 0xFF; 0xFF; 0xFF; 0xFF; 0xFF; 0xFF]) 0) seed_zero_tail [(from_array [4; 24; 70; 232; 28; 152; 112; 0; 128; 0; 0; 0; 0; 0; 0; 1])]).
  - reflexivity.
  - intros n bytes Hout; cbn [outcome] in Hout; injection Hout as <-; reflexivity.
  - reflexivity.
Defined.

(** ** [generate_random] over [getrandom] *)

Section GetRandom.

Local Open Scope nat_scope.

Lemma memcpy_spec (n : nat) :
  forall (dst : list Z) (doff : nat) (src : list Z) (soff : nat),
    doff + n <= length dst -> soff + n <= length src ->
    memcpy dst doff src soff n
    = take doff dst ++ take n (drop soff src) ++ drop (doff + n) dst.
Proof.
  induction n as [|n IH]; intros dst doff src soff Hdst Hsrc; cbn [memcpy].
  - rewrite Nat.add_0_r. cbn [take app]. symmetry. apply take_drop.
  - destruct (lookup_lt_is_Some_2 src soff ltac:(lia)) as [x Hx].
    rewrite (list_lookup_total_correct _ _ _ Hx).
    rewrite IH by (rewrite ?length_insert; lia).
    rewrite (take_S_r _ _ x) by (apply list_lookup_insert_eq; lia).
    rewrite take_insert_ge by lia.
    rewrite drop_insert_lt by lia.
    rewrite (drop_S _ _ _ Hx). cbn [take].
    rewrite <- app_assoc. cbn [app].
    replace (S doff + n) with (doff + S n) by lia. reflexivity.
Qed.

Lemma getrandom_loop_bytes (os : list getrandom_result) :
  forall (buffer : list Z) (total : nat) (out : list Z) (os' : list getrandom_result),
    length buffer = 10 -> total <= 10 ->
    getrandom_loop os buffer total = Some (inr out, os') ->
    exists used,
      os = used ++ os' /\ existsb is_failure used = false /\
      out = take total buffer ++ take (10 - total) (pooled used) /\
      length out = 10.
Proof.
  induction os as [|r os IH]; intros buffer total out os' Hbuf Htotal Hloop.
  - cbn [getrandom_loop] in Hloop.
    destruct (Nat.ltb_spec total 10); [discriminate Hloop|].
    injection Hloop as <- <-. exists [].
    assert (total = 10) by lia. subst total.
    cbn [app existsb pooled]. rewrite take_ge by lia.
    repeat split; try reflexivity; try assumption.
    cbn [take]. rewrite app_nil_r. reflexivity.
  - cbn [getrandom_loop] in Hloop.
    destruct (Nat.ltb_spec total 10) as [Hlt|Hge].
    + destruct r as [errno|pool].
      * destruct (Z.eqb_spec errno EINTR) as [->|Herr]; [|discriminate Hloop].
        destruct (IH buffer total out os' Hbuf Htotal Hloop)
          as (used & -> & Hok & -> & Hlen).
        exists (gr_error EINTR :: used). cbn [app existsb pooled is_failure].
        rewrite Z.eqb_refl. cbn [negb orb].
        repeat split; try reflexivity; assumption.
      * cbv zeta in Hloop.
        pose proof (length_take pool (10 - total)) as Hrecv.
        remember (take (10 - total) pool) as received eqn:Hreceived in *.
        assert (Hfit : total + length received <= length buffer) by lia.
        rewrite memcpy_spec in Hloop by lia.
        rewrite drop_0, (take_ge received) in Hloop by lia.
        assert (Hbuf' : length (take total buffer ++ received
                                ++ drop (total + length received) buffer) = 10).
        { rewrite !length_app, length_take, length_drop. lia. }
        assert (Htotal' : total + length received <= 10) by lia.
        destruct (IH _ _ out os' Hbuf' Htotal' Hloop)
          as (used & -> & Hok & -> & Hlen).
        exists (gr_bytes pool :: used). cbn [app existsb pooled is_failure orb].
        split; [reflexivity|]. split; [exact Hok|].
        split; [|exact Hlen].
        rewrite (app_assoc (take total buffer)).
        rewrite (take_app_length' (take total buffer ++ received))
          by (rewrite length_app, length_take; lia).
        rewrite take_app, <- app_assoc, <- Hreceived.
        do 3 f_equal. lia.
    + injection Hloop as <- <-. exists [].
      assert (total = 10) by lia. subst total.
      cbn [app existsb pooled]. rewrite take_ge by lia.
      repeat split; try reflexivity; try assumption.
      cbn [take]. rewrite app_nil_r. reflexivity.
Qed.

Lemma getrandom_loop_error (os : list getrandom_result) :
  forall (buffer : list Z) (total : nat) (exn : system_error)
         (os' : list getrandom_result),
    length buffer = 10 -> total <= 10 ->
    getrandom_loop os buffer total = Some (inl exn, os') ->
    exists used code,
      os = used ++ gr_error code :: os' /\ existsb is_failure used = false /\
      code <> EINTR /\
      exn = mk_system_error code "getrandom failed to generate random bytes" /\
      total + length (pooled used) < 10.
Proof.
  induction os as [|r os IH]; intros buffer total exn os' Hbuf Htotal Hloop.
  - cbn [getrandom_loop] in Hloop.
    destruct (Nat.ltb_spec total 10); discriminate Hloop.
  - cbn [getrandom_loop] in Hloop.
    destruct (Nat.ltb_spec total 10) as [Hlt|Hge]; [|discriminate Hloop].
    destruct r as [errno|pool].
    + destruct (Z.eqb_spec errno EINTR) as [->|Herr].
      * destruct (IH buffer total exn os' Hbuf Htotal Hloop)
          as (used & code & -> & Hok & Hcode & -> & Hshort).
        exists (gr_error EINTR :: used), code.
        cbn [app existsb pooled is_failure]. rewrite Z.eqb_refl. cbn [negb orb].
        repeat split; try reflexivity; assumption.
      * injection Hloop as <- <-. exists [], errno.
        cbn [app existsb pooled length].
        repeat split; try reflexivity; try assumption. lia.
    + cbv zeta in Hloop.
      pose proof (length_take pool (10 - total)) as Hrecv.
      remember (take (10 - total) pool) as received eqn:Hreceived in *.
      rewrite memcpy_spec in Hloop by lia.
      rewrite drop_0, (take_ge received) in Hloop by lia.
      assert (Hbuf' : length (take total buffer ++ received
                              ++ drop (total + length received) buffer) = 10).
      { rewrite !length_app, length_take, length_drop. lia. }
      assert (Htotal' : total + length received <= 10) by lia.
      destruct (IH _ _ exn os' Hbuf' Htotal' Hloop)
        as (used & code & -> & Hok & Hcode & -> & Hshort).
      exists (gr_bytes pool :: used), code.
      cbn [app existsb pooled is_failure orb].
      repeat split; try reflexivity; try assumption.
      rewrite length_app. lia.
Qed.

Lemma getrandom_loop_pending (os : list getrandom_result) :
  forall (buffer : list Z) (total : nat),
    length buffer = 10 -> total <= 10 ->
    (getrandom_loop os buffer total = None <->
     existsb is_failure os = false /\ total + length (pooled os) < 10).
Proof.
  induction os as [|r os IH]; intros buffer total Hbuf Htotal.
  - cbn [getrandom_loop existsb pooled length].
    destruct (Nat.ltb_spec total 10) as [Hlt|Hge].
    + split; [intros _; split; [reflexivity | lia] | reflexivity].
    + split; [discriminate | intros [_ Hshort]; lia].
  - cbn [getrandom_loop].
    destruct (Nat.ltb_spec total 10) as [Hlt|Hge].
    + destruct r as [errno|pool].
      * cbn [existsb pooled is_failure].
        destruct (Z.eqb_spec errno EINTR) as [->|Herr]; cbn [negb orb].
        -- apply IH; assumption.
        -- split; [discriminate | intros [H _]; discriminate H].
      * cbv zeta.
        pose proof (length_take pool (10 - total)) as Hrecv.
        remember (take (10 - total) pool) as received eqn:Hreceived in *.
        rewrite memcpy_spec by lia.
        rewrite drop_0, (take_ge received) by lia.
        assert (Hbuf' : length (take total buffer ++ received
                                ++ drop (total + length received) buffer) = 10).
        { rewrite !length_app, length_take, length_drop. lia. }
        assert (Htotal' : total + length received <= 10) by lia.
        rewrite (IH _ _ Hbuf' Htotal').
        cbn [existsb pooled is_failure orb]. rewrite length_app.
        split; intros [Hok Hshort]; (split; [exact Hok | lia]).
    + split; [discriminate|]. intros [_ Hshort]. lia.
Qed.

(** X19. When [generate_random] returns, in its [getrandom] variant, the
    array holds the first ten bytes the kernel delivered, in order,
    however the calls split them and however often a call was interrupted
    in between; no byte of the uninitialised array is left in it, and no
    call failed with another error than [EINTR]. *)
Theorem generate_random_unix_bytes
    (os os' : list getrandom_result) (buffer out : list Z) :
  length buffer = 10 ->
  generate_random_unix os buffer = Some (inr out, os') ->
  exists used,
    os = used ++ os' /\ existsb is_failure used = false /\
    out = take 10 (pooled used) /\ length out = 10.
Proof.
  intros Hbuf Hrun.
  destruct (getrandom_loop_bytes os buffer 0 out os' Hbuf ltac:(lia) Hrun)
    as (used & Hos & Hok & Hout & Hlen).
  exists used. cbn [take app] in Hout. rewrite Nat.sub_0_r in Hout.
  repeat split; assumption.
Qed.

Lemma generate_random_unix_bytes_witness :
  exists used,
    [gr_bytes [1; 2; 3]; gr_error EINTR; gr_bytes [4; 5; 6; 7; 8; 9; 10; 11; 12]; gr_error 5]%Z
    = used ++ [gr_error 5%Z] /\
    [1; 2; 3; 4; 5; 6; 7; 8; 9; 10]%Z = take 10 (pooled used).
Proof.
  destruct (generate_random_unix_bytes
              [gr_bytes [1; 2; 3]; gr_error EINTR; gr_bytes [4; 5; 6; 7; 8; 9; 10; 11; 12];
               gr_error 5]%Z
              [gr_error 5%Z] (replicate 10 0%Z) [1; 2; 3; 4; 5; 6; 7; 8; 9; 10]%Z)
    as (used & Hos & _ & Hout & _).
  - reflexivity.
  - reflexivity.
  - exists used. split; assumption.
Defined.

(** X20. When [generate_random] throws, in its [getrandom] variant, a
    call of [getrandom] failed with an [errno] other than [EINTR], and
    that [errno] is the code of the [std::system_error]; the calls before
    it were interrupted or delivered bytes, fewer than ten in all, and no
    call is made after it. *)
Theorem generate_random_unix_error
    (os os' : list getrandom_result) (buffer : list Z) (exn : system_error) :
  length buffer = 10 ->
  generate_random_unix os buffer = Some (inl exn, os') ->
  exists used code,
    os = used ++ gr_error code :: os' /\ existsb is_failure used = false /\
    code <> EINTR /\
    exn = mk_system_error code "getrandom failed to generate random bytes" /\
    length (pooled used) < 10.
Proof.
  intros Hbuf Hrun.
  destruct (getrandom_loop_error os buffer 0 exn os' Hbuf ltac:(lia) Hrun)
    as (used & code & Hos & Hok & Hcode & Hexn & Hshort).
  exists used, code. repeat split; first [assumption | lia].
Qed.

Lemma generate_random_unix_error_witness :
  exists used code,
    [gr_bytes [1; 2; 3]; gr_error EINTR; gr_error 5; gr_bytes [4; 5]]%Z
    = used ++ gr_error code :: [gr_bytes [4; 5]%Z] /\ code <> EINTR.
Proof.
  destruct (generate_random_unix_error
              [gr_bytes [1; 2; 3]; gr_error EINTR; gr_error 5; gr_bytes [4; 5]]%Z
              [gr_bytes [4; 5]%Z] (replicate 10 0%Z)
              (mk_system_error 5 "getrandom failed to generate random bytes"))
    as (used & code & Hos & _ & Hcode & _).
  - reflexivity.
  - reflexivity.
  - exists used, code. split; assumption.
Defined.

(** X21. [generate_random], in its [getrandom] variant, neither returns
    nor throws as long as every call of [getrandom] is interrupted or
    delivers bytes and fewer than ten bytes were delivered in all: a call
    that delivers no byte and a call that fails with [EINTR] are both
    followed by another call.  In every other case the calls made give an
    answer. *)
Theorem generate_random_unix_pending (os : list getrandom_result) (buffer : list Z) :
  length buffer = 10 ->
  (generate_random_unix os buffer = None <->
   existsb is_failure os = false /\ length (pooled os) < 10).
Proof.
  intros Hbuf. unfold generate_random_unix.
  rewrite (getrandom_loop_pending os buffer 0 Hbuf ltac:(lia)).
  reflexivity.
Qed.

Lemma generate_random_unix_pending_witness :
  generate_random_unix [gr_error EINTR; gr_bytes []; gr_bytes [1; 2; 3]%Z; gr_error EINTR]
    (replicate 10 0%Z) = None.
Proof.
  apply (generate_random_unix_pending
           [gr_error EINTR; gr_bytes []; gr_bytes [1; 2; 3]%Z; gr_error EINTR]
           (replicate 10 0%Z)).
  - reflexivity.
  - split; [reflexivity | cbn; lia].
Defined.

End GetRandom.
